(** * EIP-Bot: [src/modules/file/get_file_diff.ts]

    A shallow embedding of the four operations of the module
    ([getFileDiff], [formatFile], [getParsedContent], [getAuthors]) and
    the properties its specification states about them.

    The module is asynchronous JavaScript that talks to the network and
    writes warnings to the console.  It is embedded in a monad [Async]
    that threads the history of observable interactions (a [trace]) and
    carries the JavaScript exception, if one was thrown.  Remote
    collaborators are oracles that answer a query given the history so
    far, so that two identical requests issued at different moments may
    be answered differently; synchronous helpers are plain (possibly
    throwing) functions. *)

From Stdlib Require Import Ascii.
From stdpp Require Import gmap strings list.

Open Scope string_scope.
Open Scope list_scope.

(** ** JavaScript values used by the module *)

(** What a rejected promise or a [throw] carries. *)
Inductive JsError :=
| Thrown (msg : string)      (* throw `...` : a template string *)
| TypeError (msg : string)   (* raised by the runtime, e.g. undefined.toLowerCase() *)
| Rejected (reason : string) (* raised inside a collaborator *).

(** [!v] on a string-or-undefined value: undefined and the empty string
    are both falsy. *)
Definition truthy (v : option string) : bool :=
  match v with
  | Some (String _ _) => true
  | _ => false
  end.

(** A value of a front-matter attribute, as the YAML parser hands it
    over: not only strings.  A blank value is null; [JsOther] stands for
    whatever else there is (an array, a date, a nested mapping, a number
    that is not an integer), all of it truthy and without string methods. *)
Inductive JsValue :=
| JsNull
| JsBoolean (b : bool)
| JsNumber (n : Z)
| JsNaN
| JsString (s : string)
| JsOther (what : string).

(** [!v] on any value or undefined: undefined, null, false, 0, NaN and
    the empty string are falsy. *)
Definition truthy_value (v : option JsValue) : bool :=
  match v with
  | None | Some JsNull | Some JsNaN => false
  | Some (JsBoolean b) => b
  | Some (JsNumber n) => negb (n =? 0)%Z
  | Some (JsString s) => truthy (Some s)
  | Some (JsOther _) => true
  end.

(** [!n] on a number-or-undefined value: undefined and 0 are falsy. *)
Definition truthy_num (v : option Z) : bool :=
  match v with
  | Some n => negb (n =? 0)%Z
  | None => false
  end.

(** [a || b] where [a] is a string or undefined and [b] a string. *)
Definition or_else (a : option string) (b : string) : string :=
  match a with
  | Some (String c s) => String c s
  | _ => b
  end.

(** [String.prototype.toLowerCase], on the ASCII range: the strings are
    sequences of 8-bit characters here, and only A-Z have a lower case. *)
Definition lower_ascii (c : ascii) : ascii :=
  let n := nat_of_ascii c in
  if (65 <=? n)%nat && (n <=? 90)%nat then ascii_of_nat (n + 32) else c.

Fixpoint toLowerCase (s : string) : string :=
  match s with
  | EmptyString => EmptyString
  | String c s' => String (lower_ascii c) (toLowerCase s')
  end.

(** [author[0] === "@"] *)
Definition starts_with_at (author : string) : bool :=
  match author with
  | String c _ => bool_decide (c = ascii_of_nat 64)
  | EmptyString => false
  end.

(** The double quote, for the messages that quote a path. *)
Definition dquote : string := String (ascii_of_nat 34) EmptyString.

(** ** Observable interactions *)

Inductive event :=
| EvRequirePr
| EvGetContent (path ref : string)
| EvSearchUsers (q : string)
| EvWarn (msg : string).

#[global] Instance event_eq_dec : EqDecision event.
Proof. solve_decision. Defined.

Definition trace := list event.

(** ** The monad of asynchronous, failing, interacting computations *)

Definition Async (A : Type) : Type := trace → (JsError + A) * trace.

Definition ret {A} (a : A) : Async A := λ tr, (inr a, tr).

Definition throw {A} (e : JsError) : Async A := λ tr, (inl e, tr).

Definition bind {A B} (m : Async A) (k : A → Async B) : Async B :=
  λ tr, match m tr with
        | (inr a, tr') => k a tr'
        | (inl e, tr') => (inl e, tr')
        end.

(** [p.catch(h)] *)
Definition catch {A} (m : Async A) (h : JsError → Async A) : Async A :=
  λ tr, match m tr with
        | (inr a, tr') => (inr a, tr')
        | (inl e, tr') => h e tr'
        end.

(** A synchronous call that returns or throws. *)
Definition lift {A} (r : JsError + A) : Async A := λ tr, (r, tr).

(** A console write. *)
Definition emit (ev : event) : Async unit := λ tr, (inr tt, tr ++ [ev]).

(** An awaited remote call: it is recorded, and answered from the
    history that precedes it. *)
Definition remote {A} (ev : event) (oracle : trace → JsError + A) : Async A :=
  λ tr, (oracle tr, tr ++ [ev]).

Declare Scope async_scope.
Delimit Scope async_scope with async.
Notation "x <- m ;; k" := (bind m (λ x, k))
  (at level 100, m at next level, right associativity) : async_scope.
Notation "m ;;; k" := (bind m (λ _, k))
  (at level 100, right associativity) : async_scope.

(** [Promise.all(xs.map(f))]: the calls are started in input order and
    the results are delivered in input order.  The model runs them one
    after the other, each to its end; the interleavings of calls that
    are pending together are not represented. *)
Fixpoint mapM {A B} (f : A → Async B) (xs : list A) : Async (list B) :=
  match xs with
  | [] => ret []
  | x :: xs' =>
      (y <- f x ;; ys <- mapM f xs' ;; ret (y :: ys))%async
  end.

(** The events of a trace that are user searches, and those that are
    warnings. *)
Definition is_search (ev : event) : bool :=
  match ev with EvSearchUsers _ => true | _ => false end.

Definition is_warn (ev : event) : bool :=
  match ev with EvWarn _ => true | _ => false end.

Definition searches (tr : trace) : list event := filter (λ ev, is_search ev = true) tr.
Definition warnings (tr : trace) : list event := filter (λ ev, is_warn ev = true) tr.

(** ** Data model *)

(** The keys of the front matter that the module reads
    ([FrontMatterAttributes.eip] and so on). *)
Inductive FrontMatterAttributes := eip | status | author | category | type.

(** What [front-matter] returns.  The attributes are what the YAML
    header holds, untyped: a value can be any [JsValue]. *)
Record FrontMatterResult := {
  attributes : gmap string JsValue;
  body : string
}.

Record ParsedContent := {
  pc_path : string;
  pc_name : string;
  pc_content : FrontMatterResult
}.

(** The record of the content API, every field of which may be missing
    ([data?.content] and so on). *)
Record ContentFile := {
  data_content : option string;
  data_encoding : option string;
  data_path : option string;
  data_name : option string
}.

Record PullRequest := {
  head_sha : string;
  base_sha : string
}.

Record User := { login : string }.

Record SearchResults := {
  total_count : Z;
  items : list User
}.

(** [File]: the changed file of the pull request; only its name is read. *)
Record File := { filename : string }.

(** What [assertCategory] returns: the two fields that are read. *)
Record Classified (C T : Type) := {
  cl_category : C;
  cl_type : T
}.
Arguments cl_category {C T} _.
Arguments cl_type {C T} _.

Record FormattedFile (C T : Type) := {
  ff_eipNum : option JsValue;
  ff_status : string;
  ff_authors : option (gset string);
  ff_name : string;
  ff_filenameEipNum : Z;
  ff_category : C;
  ff_type : T
}.
Arguments ff_eipNum {C T} _.
Arguments ff_status {C T} _.
Arguments ff_authors {C T} _.
Arguments ff_name {C T} _.
Arguments ff_filenameEipNum {C T} _.
Arguments ff_category {C T} _.
Arguments ff_type {C T} _.

Record FileDiff (C T : Type) := {
  fd_head : FormattedFile C T;
  fd_base : FormattedFile C T
}.
Arguments fd_head {C T} _.
Arguments fd_base {C T} _.

(** ** Collaborators

    Everything the module imports from ["#domain"], ["#assertions"],
    [front-matter], [Buffer] and the GitHub client.  None of it is part
    of the module; the operations below are parametric in it.  The three
    network calls see the history; the others are functions. *)
Class Externals := {
  Category : Type;
  EipType : Type;
  Regex : Type;
  (* the string value of each member of the enum FrontMatterAttributes *)
  attr : FrontMatterAttributes → string;
  AUTHOR_RE : Regex;
  matchAll : string → Regex → nat → list string;
  (* matchAll handed a value that is not a string, which its declared
     type excludes and the untyped attributes allow *)
  matchAllValue : JsValue → Regex → nat → JsError + list string;
  (* assertCategory({maybeCategory, fileName, maybeType}) *)
  assertCategory :
    option JsValue → string → option JsValue → JsError + Classified Category EipType;
  requireFilenameEipNum : string → JsError + option Z;
  requireEncoding : option string → string → JsError + unit;
  (* Buffer.from(content, encoding).toString() *)
  bufferDecode : string → option string → JsError + string;
  frontmatter : string → JsError + FrontMatterResult;
  requirePr : trace → JsError + PullRequest;
  (* Github.repos.getContent({owner, repo, path, ref}).then(res => res.data) *)
  getContent : trace → string → string → JsError + option ContentFile;
  (* Github.search.users({q}) *)
  searchUsers : trace → string → JsError + SearchResults
}.

Section Operations.
Context `{E : Externals}.

Local Open Scope async_scope.

(** *** getAuthors *)

Definition findUserByEmail (email : string) : Async (option string) :=
  results <- remote (EvSearchUsers email) (λ tr, searchUsers tr email) ;;
  match (0 <? total_count results)%Z, items results with
  | true, first :: _ => ret (Some ("@" +:+ login first))
  | _, _ =>
      emit (EvWarn ("No github user found, using email instead: " +:+ email)) ;;;
      ret None
  end.

Definition resolveAuthor (author : string) : Async string :=
  if starts_with_at author then ret (toLowerCase author)
  else
    queriedUser <- findUserByEmail author ;;
    ret (toLowerCase (or_else queriedUser author)).

Definition getAuthors (rawAuthorList : option string) : Async (option (gset string)) :=
  if negb (truthy rawAuthorList) then ret None
  else
    let authors := matchAll (default "" rawAuthorList) AUTHOR_RE 1 in
    resolved <- mapM resolveAuthor authors ;;
    ret (Some (list_to_set resolved)).

(** [getAuthors(v)] where [v] is whatever an attribute holds.  The
    parameter is declared a string or undefined, and on those this is
    [getAuthors]; the attributes are untyped, so another value can arrive:
    the guard [!rawAuthorList] takes it when it is falsy, and it reaches
    [matchAll] when it is not. *)
Definition getAuthors_any (v : option JsValue) : Async (option (gset string)) :=
  match v with
  | None => getAuthors None
  | Some (JsString rawAuthorList) => getAuthors (Some rawAuthorList)
  | Some other =>
      if negb (truthy_value (Some other)) then ret None
      else
        authors <- lift (matchAllValue other AUTHOR_RE 1) ;;
        resolved <- mapM resolveAuthor authors ;;
        ret (Some (list_to_set resolved))
  end.

(** *** getParsedContent *)

(** [data?.f] *)
Definition field {A} (data : option ContentFile) (f : ContentFile → option A) : option A :=
  match data with
  | Some d => f d
  | None => None
  end.

(** [if (!v) { throw msg }], after which [v] is a non-empty string. *)
Definition unless_falsy (v : option string) (msg : string) : Async string :=
  if negb (truthy v) then throw (Thrown msg) else ret (default "" v).

Definition no_content_msg (filename sha : string) : string :=
  "requested file " +:+ filename +:+ " at ref sha " +:+ sha +:+ " contains no content".
Definition no_path_msg (filename sha : string) : string :=
  "requested file " +:+ filename +:+ " at ref sha " +:+ sha +:+ " has no path".
Definition no_name_msg (filename sha : string) : string :=
  "requested file " +:+ filename +:+ " at ref sha " +:+ sha +:+ " has no name".

Definition getParsedContent (filename sha : string) : Async ParsedContent :=
  let decodeData (content : string) (encoding : option string) : Async string :=
    lift (requireEncoding encoding filename) ;;;
    lift (bufferDecode content encoding) in
  data <- remote (EvGetContent filename sha) (λ tr, getContent tr filename sha) ;;
  content <- unless_falsy (field data data_content) (no_content_msg filename sha) ;;
  path <- unless_falsy (field data data_path) (no_path_msg filename sha) ;;
  name <- unless_falsy (field data data_name) (no_name_msg filename sha) ;;
  text <- decodeData content (field data data_encoding) ;;
  parsed <- lift (frontmatter text) ;;
  ret {| pc_path := path; pc_name := name; pc_content := parsed |}.

(** *** formatFile *)

Definition extraction_msg (path : string) : string :=
  "Failed to extract eip number from file " +:+ dquote +:+ path +:+ dquote.

(** [v.toLowerCase()] where [v] is whatever an attribute holds: only a
    string has the method. *)
Definition call_toLowerCase (v : option JsValue) : Async string :=
  match v with
  | Some (JsString s) => ret (toLowerCase s)
  | None => throw (TypeError "Cannot read properties of undefined (reading 'toLowerCase')")
  | Some JsNull => throw (TypeError "Cannot read properties of null (reading 'toLowerCase')")
  | Some _ => throw (TypeError "toLowerCase is not a function")
  end.

Definition formatFile (file : ParsedContent) : Async (FormattedFile Category EipType) :=
  filenameEipNum <- lift (requireFilenameEipNum (pc_name file)) ;;
  if negb (truthy_num filenameEipNum) then throw (Thrown (extraction_msg (pc_path file)))
  else
    let attrs := attributes (pc_content file) in
    let eipNum := attrs !! attr eip in
    status <- call_toLowerCase (attrs !! attr status) ;;
    authors <- getAuthors_any (attrs !! attr author) ;;
    forCategory <- lift (assertCategory (attrs !! attr category) (pc_name file)
                                        (attrs !! attr type)) ;;
    forType <- lift (assertCategory (attrs !! attr category) (pc_name file)
                                    (attrs !! attr type)) ;;
    ret {| ff_eipNum := eipNum;
           ff_status := status;
           ff_authors := authors;
           ff_name := pc_name file;
           ff_filenameEipNum := default 0%Z filenameEipNum;
           ff_category := cl_category forCategory;
           ff_type := cl_type forType |}.

(** *** getFileDiff *)

Definition getFileDiff (file : File) : Async (FileDiff Category EipType) :=
  pr <- remote EvRequirePr requirePr ;;
  let filename := filename file in
  head <- getParsedContent filename (head_sha pr) ;;
  base <- catch (getParsedContent filename (base_sha pr)) (λ _, ret head) ;;
  formattedHead <- formatFile head ;;
  formattedBase <- formatFile base ;;
  ret {| fd_head := formattedHead; fd_base := formattedBase |}.

(** *** The specification's reading of formatFile

    The same operation with the classification rule consulted once and
    both fields taken from that one answer. *)
Definition formatFile_single_classification (file : ParsedContent)
  : Async (FormattedFile Category EipType) :=
  filenameEipNum <- lift (requireFilenameEipNum (pc_name file)) ;;
  if negb (truthy_num filenameEipNum) then throw (Thrown (extraction_msg (pc_path file)))
  else
    let attrs := attributes (pc_content file) in
    status <- call_toLowerCase (attrs !! attr status) ;;
    authors <- getAuthors_any (attrs !! attr author) ;;
    classified <- lift (assertCategory (attrs !! attr category) (pc_name file)
                                       (attrs !! attr type)) ;;
    ret {| ff_eipNum := attrs !! attr eip;
           ff_status := status;
           ff_authors := authors;
           ff_name := pc_name file;
           ff_filenameEipNum := default 0%Z filenameEipNum;
           ff_category := cl_category classified;
           ff_type := cl_type classified |}.

End Operations.

(** [msg] contains [s]. *)
Definition mentions (msg s : string) : Prop := ∃ before after, msg = before +:+ s +:+ after.

(** A computation whose outcome and whose interactions are the same
    whatever happened before it. *)
Definition fixed {A} (m : Async A) : Prop :=
  ∃ r evs, ∀ tr, m tr = (r, tr ++ evs).

(** The record [file] with another attributes mapping. *)
Definition with_attributes (file : ParsedContent) (attrs : gmap string JsValue)
    : ParsedContent :=
  {| pc_path := pc_path file;
     pc_name := pc_name file;
     pc_content := {| attributes := attrs; body := body (pc_content file) |} |}.

(** The formatted record with another [eipNum]. *)
Definition with_eipNum {C T} (v : option JsValue) (formatted : FormattedFile C T)
    : FormattedFile C T :=
  {| ff_eipNum := v;
     ff_status := ff_status formatted;
     ff_authors := ff_authors formatted;
     ff_name := ff_name formatted;
     ff_filenameEipNum := ff_filenameEipNum formatted;
     ff_category := ff_category formatted;
     ff_type := ff_type formatted |}.

(** What a token of the author list can become: a handle becomes itself
    lowercased; an address becomes itself lowercased or [@] and some
    login, lowercased. *)
Definition resolves_to (token resolved : string) : Prop :=
  resolved = toLowerCase token
  ∨ (starts_with_at token = false
     ∧ ∃ user : User, resolved = toLowerCase ("@" +:+ login user)).

(** ** A concrete set of collaborators

    Small stand-ins for the imported helpers and for the remote end, on
    which the operations can be run.  They are not the project's
    helpers; they only have their shape. *)
Module Sample.

(** Tokens enclosed in [( )] or [< >], the way author lists are written:
    [Alice (@alice), Bob <bob@example.org>]. *)
Definition is_open (c : ascii) : bool :=
  bool_decide (c = ascii_of_nat 40) || bool_decide (c = ascii_of_nat 60).
Definition is_close (c : ascii) : bool :=
  bool_decide (c = ascii_of_nat 41) || bool_decide (c = ascii_of_nat 62).

Fixpoint enclosed (s : string) (open : option string) : list string :=
  match s with
  | EmptyString => []
  | String c s' =>
      match open with
      | None => if is_open c then enclosed s' (Some "") else enclosed s' None
      | Some tok =>
          if is_close c
          then (if truthy (Some tok) then [tok] else []) ++ enclosed s' None
          else enclosed s' (Some (tok +:+ String c EmptyString))
      end
  end.

Definition matchAll (text : string) (re : unit) (group : nat) : list string :=
  enclosed text None.

Definition attr (a : FrontMatterAttributes) : string :=
  match a with
  | eip => "eip"
  | status => "status"
  | author => "author"
  | category => "category"
  | type => "type"
  end.

Definition matchAllValue (v : JsValue) (re : unit) (group : nat) : JsError + list string :=
  inl (TypeError "the author list is not a string").

(** The type is required and the category is optional; both are strings. *)
Definition lowered (v : option JsValue) : option string :=
  match v with
  | Some (JsString s) => Some (toLowerCase s)
  | _ => None
  end.

Definition assertCategory (maybeCategory : option JsValue) (fileName : string)
    (maybeType : option JsValue) : JsError + Classified (option string) string :=
  match lowered maybeType with
  | Some t => inr {| cl_category := lowered maybeCategory; cl_type := t |}
  | None => inl (Rejected ("type is required in " +:+ fileName))
  end.

(** The number of [eip-<digits>...]. *)
Definition digit (c : ascii) : option Z :=
  let n := nat_of_ascii c in
  if (48 <=? n)%nat && (n <=? 57)%nat then Some (Z.of_nat (n - 48)) else None.

Fixpoint digits (s : string) (acc : option Z) : option Z :=
  match s with
  | EmptyString => acc
  | String c s' =>
      match digit c with
      | Some d => digits s' (Some (10 * default 0 acc + d)%Z)
      | None => acc
      end
  end.

Definition requireFilenameEipNum (name : string) : JsError + option Z :=
  match name with
  | String "e"%char (String "i"%char (String "p"%char (String "-"%char rest))) =>
      inr (digits rest None)
  | _ => inr None
  end.

Definition requireEncoding (encoding : option string) (filename : string) : JsError + unit :=
  if bool_decide (encoding = Some "utf8") then inr tt
  else inl (Rejected ("unsupported encoding for " +:+ filename)).

Definition bufferDecode (content : string) (encoding : option string) : JsError + string :=
  inr content.

(** One [key: value] per line; a blank value is null. *)
Fixpoint split_on (sep : ascii) (s : string) (cur : string) : list string :=
  match s with
  | EmptyString => [cur]
  | String c s' =>
      if bool_decide (c = sep) then cur :: split_on sep s' ""
      else split_on sep s' (cur +:+ String c EmptyString)
  end.

Fixpoint key_value (line : string) (key : string) : option (string * JsValue) :=
  match line with
  | String ":"%char EmptyString => Some (key, JsNull)
  | String ":"%char (String " "%char EmptyString) => Some (key, JsNull)
  | String ":"%char (String " "%char value) => Some (key, JsString value)
  | String c rest => key_value rest (key +:+ String c EmptyString)
  | EmptyString => None
  end.

Definition frontmatter (text : string) : JsError + FrontMatterResult :=
  let lines := split_on (ascii_of_nat 10) text "" in
  inr {| attributes := list_to_map (omap (λ l, key_value l "") lines); body := "" |}.

Definition requirePr (tr : trace) : JsError + PullRequest :=
  inr {| head_sha := "head"; base_sha := "base" |}.

(** The remote repository: the files it holds at each revision. *)
Definition repository := list (string * string * option ContentFile).

Definition getContent (repo : repository) (tr : trace) (path ref : string)
    : JsError + option ContentFile :=
  match list_find (λ entry, entry.1 = (path, ref)) repo with
  | Some (_, entry) => inr entry.2
  | None => inl (Rejected "Not Found")
  end.

Definition externals (repo : repository)
    (searchUsers : trace → string → JsError + SearchResults) : Externals :=
  Build_Externals
    (option string) (* Category *)
    string          (* EipType *)
    unit            (* Regex *)
    attr
    tt              (* AUTHOR_RE *)
    matchAll
    matchAllValue
    assertCategory
    requireFilenameEipNum
    requireEncoding
    bufferDecode
    frontmatter
    requirePr
    (getContent repo)
    searchUsers.

(** A user directory that knows one address. *)
Definition directory (tr : trace) (q : string) : JsError + SearchResults :=
  if bool_decide (q = "carol@example.org")
  then inr {| total_count := 1; items := [ {| login := "Carol" |} ] |}
  else inr {| total_count := 0; items := [] |}.

(** A directory in which an address becomes known after it was first
    searched for. *)
Definition late_directory (tr : trace) (q : string) : JsError + SearchResults :=
  if bool_decide (EvSearchUsers q ∈ (tr : list event))
  then inr {| total_count := 1; items := [ {| login := "Dave" |} ] |}
  else inr {| total_count := 0; items := [] |}.

Definition nl : string := String (ascii_of_nat 10) EmptyString.

Definition file_at (name text : string) : option ContentFile :=
  Some {| data_content := Some text;
          data_encoding := Some "utf8";
          data_path := Some ("EIPS/" +:+ name);
          data_name := Some name |}.

Definition eip_text : string :=
  "eip: 1234" +:+ nl +:+ "status: Draft" +:+ nl +:+
  "author: Alice (@Alice), Carol <carol@example.org>, Dave <dave@example.org>" +:+ nl +:+
  "type: Standards Track" +:+ nl +:+ "category: Core".

(** A new proposal: present at the head revision only. *)
Definition new_eip : repository :=
  [ ("eip-1234.md", "head", file_at "eip-1234.md" eip_text) ].

(** A new file that is not a proposal. *)
Definition new_readme : repository :=
  [ ("README.md", "head", file_at "README.md" "status: Draft") ].

(** Three records that each lack one field, under an encoding the
    sample does not support. *)
Definition incomplete : repository :=
  [ ("eip-1.md", "head",
     Some {| data_content := None; data_encoding := Some "latin1";
             data_path := Some "EIPS/eip-1.md"; data_name := Some "eip-1.md" |});
    ("eip-2.md", "head",
     Some {| data_content := Some "status: Draft"; data_encoding := Some "latin1";
             data_path := None; data_name := Some "eip-2.md" |});
    ("eip-3.md", "head",
     Some {| data_content := Some "status: Draft"; data_encoding := Some "latin1";
             data_path := Some "EIPS/eip-3.md"; data_name := None |}) ].

Definition parsed (name : string) (attrs : list (string * string)) : ParsedContent :=
  {| pc_path := "EIPS/" +:+ name;
     pc_name := name;
     pc_content := {| attributes := list_to_map (prod_map id JsString <$> attrs);
                      body := "" |} |}.

(** A proposal with every attribute, one with no status, and one with
    only a status and a type. *)
Definition full_eip : ParsedContent :=
  parsed "eip-1234.md"
    [ ("eip", "1234"); ("status", "Draft");
      ("author", "Alice (@Alice), Carol <carol@example.org>, Dave <dave@example.org>");
      ("type", "Standards Track"); ("category", "Core") ].

Definition eip_without_status : ParsedContent :=
  parsed "eip-1234.md"
    [ ("eip", "1234"); ("author", "Alice (@Alice)");
      ("type", "Standards Track"); ("category", "Core") ].

Definition bare_eip : ParsedContent :=
  parsed "eip-1234.md" [ ("status", "Last Call"); ("type", "Meta") ].

(** A proposal whose status line is blank: the value is null. *)
Definition eip_blank_status : ParsedContent :=
  {| pc_path := "EIPS/eip-1234.md";
     pc_name := "eip-1234.md";
     pc_content :=
       {| attributes :=
            list_to_map [ ("status", JsNull);
                          ("author", JsString "Carol <carol@example.org>");
                          ("type", JsString "Meta") ];
          body := "" |} |}.

Definition readme : ParsedContent :=
  parsed "README.md" [ ("status", "Draft"); ("type", "Meta") ].

(** A proposal that exists at both revisions, with another status and
    another author at the base. *)
Definition base_text : string :=
  "eip: 1234" +:+ nl +:+ "status: Review" +:+ nl +:+
  "author: Bob (@bob)" +:+ nl +:+
  "type: Standards Track" +:+ nl +:+ "category: Core".

Definition changed_eip : repository :=
  [ ("eip-1234.md", "head", file_at "eip-1234.md" eip_text);
    ("eip-1234.md", "base", file_at "eip-1234.md" base_text) ].

(** The same, with a base that has lost its status. *)
Definition changed_eip_bad_base : repository :=
  [ ("eip-1234.md", "head", file_at "eip-1234.md" eip_text);
    ("eip-1234.md", "base", file_at "eip-1234.md" "type: Meta") ].

(** A file that is not a proposal, at both revisions. *)
Definition changed_readme : repository :=
  [ ("README.md", "head", file_at "README.md" "status: Draft");
    ("README.md", "base", file_at "README.md" "status: Draft") ].

(** What the two revisions of the changed proposal parse to and are
    formatted to. *)
Definition base_eip : ParsedContent :=
  parsed "eip-1234.md"
    [ ("eip", "1234"); ("status", "Review"); ("author", "Bob (@bob)");
      ("type", "Standards Track"); ("category", "Core") ].

Definition base_without_status : ParsedContent :=
  parsed "eip-1234.md" [ ("type", "Meta") ].

Definition formatted_head : FormattedFile (option string) string :=
  {| ff_eipNum := Some (JsString "1234");
     ff_status := "draft";
     ff_authors := Some {[ "@alice"; "@carol"; "dave@example.org" ]};
     ff_name := "eip-1234.md";
     ff_filenameEipNum := 1234;
     ff_category := Some "core";
     ff_type := "standards track" |}.

Definition formatted_base : FormattedFile (option string) string :=
  {| ff_eipNum := Some (JsString "1234");
     ff_status := "review";
     ff_authors := Some {[ "@bob" ]};
     ff_name := "eip-1234.md";
     ff_filenameEipNum := 1234;
     ff_category := Some "core";
     ff_type := "standards track" |}.

(** An author list with a handle, a known address and an unknown one, and
    what resolving it adds to the history. *)
Definition author_line : string :=
  "Alice (@Alice), Carol <carol@example.org>, Dave <dave@example.org>".

Definition author_line_events : trace :=
  [ EvSearchUsers "carol@example.org";
    EvSearchUsers "dave@example.org";
    EvWarn "No github user found, using email instead: dave@example.org" ].

(** A user directory that is out of service. *)
Definition down_directory (tr : trace) (q : string) : JsError + SearchResults :=
  inl (Rejected "search unavailable").

(** The collaborators over each repository. *)
Definition offline : Externals := externals [] down_directory.
Definition with_changed_eip : Externals := externals changed_eip directory.
Definition with_changed_eip_bad_base : Externals :=
  externals changed_eip_bad_base directory.
Definition with_changed_readme : Externals := externals changed_readme directory.
Definition plain : Externals := externals [] directory.
Definition with_new_eip : Externals := externals new_eip directory.
Definition with_new_eip_late : Externals := externals new_eip late_directory.
Definition with_new_readme : Externals := externals new_readme directory.
Definition with_incomplete : Externals := externals incomplete directory.

End Sample.

(** * Properties *)

(** ** Running the monad *)

Lemma bind_inr {A B} (m : Async A) (k : A → Async B) tr a tr' :
  m tr = (inr a, tr') → bind m k tr = k a tr'.
Proof. intros H. unfold bind. by rewrite H. Qed.

Lemma bind_inl {A B} (m : Async A) (k : A → Async B) tr e tr' :
  m tr = (inl e, tr') → bind m k tr = (inl e, tr').
Proof. intros H. unfold bind. by rewrite H. Qed.

Lemma bind_lift {A B} (r : JsError + A) (k : A → Async B) tr :
  bind (lift r) k tr = match r with inr a => k a tr | inl e => (inl e, tr) end.
Proof. unfold bind, lift. by destruct r. Qed.

Lemma truthy_spec (v : option string) :
  truthy v = false ↔ v = None ∨ v = Some "".
Proof.
  destruct v as [[|c s]|]; simpl; split; try done; auto.
  - intros [H|H]; discriminate.
Qed.

Lemma append_assoc (a b c : string) : (a +:+ b) +:+ c = a +:+ (b +:+ c).
Proof.
  induction a as [|x a IH]; [done|].
  change (String x ((a +:+ b) +:+ c) = String x (a +:+ (b +:+ c))).
  by rewrite IH.
Qed.

Section AuthorProperties.
Context `{E : Externals}.

(** A handle is resolved on the spot. *)
Lemma resolveAuthor_handle (author : string) (tr : trace) :
  starts_with_at author = true →
  resolveAuthor author tr = (inr (toLowerCase author), tr).
Proof. intros H. unfold resolveAuthor. by rewrite H. Qed.

Lemma mapM_resolveAuthor_handles (authors : list string) (tr : trace) :
  Forall (λ a, starts_with_at a = true) authors →
  mapM resolveAuthor authors tr = (inr (toLowerCase <$> authors), tr).
Proof.
  induction 1 as [|a authors Ha _ IH]; [done|].
  simpl. rewrite (bind_inr _ _ _ _ _ (resolveAuthor_handle a tr Ha)).
  by rewrite (bind_inr _ _ _ _ _ IH).
Qed.

(** With a present, non-empty list the answer is never undefined. *)
Lemma getAuthors_truthy (rawAuthorList : option string) (tr : trace) :
  truthy rawAuthorList = true →
  getAuthors rawAuthorList tr =
    match mapM resolveAuthor (matchAll (default "" rawAuthorList) AUTHOR_RE 1) tr with
    | (inr resolved, tr') => (inr (Some (list_to_set resolved)), tr')
    | (inl e, tr') => (inl e, tr')
    end.
Proof. intros H. unfold getAuthors, bind. rewrite H. simpl. by repeat case_match. Qed.

Lemma getAuthors_falsy (rawAuthorList : option string) (tr : trace) :
  truthy rawAuthorList = false → getAuthors rawAuthorList tr = (inr None, tr).
Proof. intros H. unfold getAuthors. by rewrite H. Qed.

(** C2, as amended.  [getAuthors] returns undefined exactly when the raw
    author list is absent or is the empty string (both are falsy for
    the guard [!rawAuthorList]).  For a non-empty string it never
    returns undefined, and when token extraction matches nothing in a
    non-empty string it returns the empty set. *)
Theorem getAuthors_undefined_iff_absent_or_empty
    (rawAuthorList : option string) (tr : trace) :
  ((getAuthors rawAuthorList tr).1 = inr None
     ↔ rawAuthorList = None ∨ rawAuthorList = Some "")
  ∧ (∀ raw, rawAuthorList = Some raw → raw ≠ "" →
       matchAll raw AUTHOR_RE 1 = [] →
       getAuthors rawAuthorList tr = (inr (Some ∅), tr)).
Proof.
  split.
  - rewrite <- truthy_spec. destruct (truthy rawAuthorList) eqn:Ht.
    + rewrite (getAuthors_truthy _ _ Ht). split; [|done].
      by repeat case_match.
    + by rewrite (getAuthors_falsy _ _ Ht).
  - intros raw -> Hne Hnone.
    rewrite getAuthors_truthy; [|by destruct raw].
    simpl. by rewrite Hnone.
Qed.

(** C4.  A token that does not begin with [@] is searched for as an
    email address.  When the search answers with a positive count and
    a first item, the resolved value is [@] followed by that item's
    login, lowercased.  When it answers with no result, exactly one
    warning is written and the resolved value is the token itself,
    lowercased. *)
Theorem resolveAuthor_email (author : string) (tr : trace) (results : SearchResults) :
  starts_with_at author = false →
  searchUsers tr author = inr results →
  (∀ first rest,
      (0 < total_count results)%Z → items results = first :: rest →
      resolveAuthor author tr =
        (inr (toLowerCase ("@" +:+ login first)), tr ++ [EvSearchUsers author]))
  ∧ ((total_count results ≤ 0)%Z ∨ items results = [] →
      resolveAuthor author tr =
        (inr (toLowerCase author),
         tr ++ [EvSearchUsers author;
                EvWarn ("No github user found, using email instead: " +:+ author)])
      ∧ length (warnings (resolveAuthor author tr).2) = S (length (warnings tr))).
Proof.
  intros Hat Hsearch.
  assert (Hrun : ∀ k : SearchResults → Async (option string),
    bind (remote (EvSearchUsers author) (λ tr, searchUsers tr author)) k tr
    = k results (tr ++ [EvSearchUsers author])).
  { intros k. unfold bind, remote. by rewrite Hsearch. }
  split.
  - intros first rest Hpos Hitems.
    unfold resolveAuthor, findUserByEmail. rewrite Hat.
    unfold bind at 1. rewrite Hrun, Hitems.
    by rewrite (proj2 (Z.ltb_lt _ _) Hpos).
  - intros Hzero.
    assert (Hres : resolveAuthor author tr =
      (inr (toLowerCase author),
       tr ++ [EvSearchUsers author;
              EvWarn ("No github user found, using email instead: " +:+ author)])).
    { unfold resolveAuthor, findUserByEmail. rewrite Hat.
      unfold bind at 1. rewrite Hrun.
      destruct Hzero as [Hle|Hnil].
      - rewrite (proj2 (Z.ltb_ge _ _) Hle).
        unfold bind, emit, ret. simpl. by rewrite <- app_assoc.
      - rewrite Hnil. destruct (0 <? total_count results)%Z;
          unfold bind, emit, ret; simpl; by rewrite <- app_assoc. }
    split; [done|].
    rewrite Hres. unfold warnings. cbn [snd].
    rewrite (filter_app _ tr), length_app.
    rewrite filter_cons_False by done.
    rewrite filter_cons_True by done. simpl. apply Nat.add_1_r.
Qed.

(** C5, as amended.  For every non-empty author list whose extracted
    tokens all begin with [@], [getAuthors] returns exactly the set of
    those tokens lowercased, and the history is left as it was: no
    user search is issued (and no warning is written). *)
Theorem getAuthors_handles_only (raw : string) (tr : trace) :
  raw ≠ "" →
  Forall (λ a, starts_with_at a = true) (matchAll raw AUTHOR_RE 1) →
  getAuthors (Some raw) tr =
    (inr (Some (list_to_set (toLowerCase <$> matchAll raw AUTHOR_RE 1))), tr)
  ∧ searches (getAuthors (Some raw) tr).2 = searches tr.
Proof.
  intros Hne Hall.
  assert (Hrun : getAuthors (Some raw) tr =
    (inr (Some (list_to_set (toLowerCase <$> matchAll raw AUTHOR_RE 1))), tr)).
  { rewrite getAuthors_truthy; [|by destruct raw].
    simpl. by rewrite (mapM_resolveAuthor_handles _ tr Hall). }
  split; [done|]. by rewrite Hrun.
Qed.

End AuthorProperties.

(** The two results of the search collaborator on one address. *)
Lemma resolveAuthor_email_witness :
  resolveAuthor (E := Sample.plain) "carol@example.org" []
    = (inr "@carol", [EvSearchUsers "carol@example.org"])
  ∧ resolveAuthor (E := Sample.plain) "dave@example.org" []
    = (inr "dave@example.org",
       [EvSearchUsers "dave@example.org";
        EvWarn "No github user found, using email instead: dave@example.org"]).
Proof.
  split.
  - apply (proj1 (resolveAuthor_email (E := Sample.plain) "carol@example.org" []
                    {| total_count := 1; items := [ {| login := "Carol" |} ] |}
                    eq_refl eq_refl) {| login := "Carol" |} []);
      [reflexivity | reflexivity].
  - apply (proj2 (resolveAuthor_email (E := Sample.plain) "dave@example.org" []
                    {| total_count := 0; items := [] |} eq_refl eq_refl)).
    right. reflexivity.
Defined.

(** The claim of C2 fails on the present-but-empty string: the guard
    [!rawAuthorList] takes it for an absent one, and the answer is
    undefined, not the empty set. *)
Lemma getAuthors_empty_string_is_undefined :
  getAuthors (E := Sample.plain) (Some "") [] = (inr None, [])
  ∧ ¬ (∀ rawAuthorList : option string,
         (getAuthors (E := Sample.plain) rawAuthorList []).1 = inr None
         ↔ rawAuthorList = None).
Proof.
  split; [reflexivity|].
  intros H. specialize (H (Some "")). destruct H as [H _].
  specialize (H eq_refl). discriminate.
Qed.

Lemma getAuthors_undefined_iff_absent_or_empty_witness :
  getAuthors (E := Sample.plain) (Some "nobody") [] = (inr (Some ∅), []).
Proof.
  apply (proj2 (getAuthors_undefined_iff_absent_or_empty
                  (E := Sample.plain) (Some "nobody") []) "nobody");
    [reflexivity | discriminate | reflexivity].
Defined.

(** The claim of C5 fails on the empty author list: every one of its
    (zero) tokens begins with [@], and the answer is undefined instead of
    the set of the tokens. *)
Lemma getAuthors_handles_only_fails_on_empty_string :
  Forall (λ a, starts_with_at a = true)
         (matchAll (Externals := Sample.plain) "" AUTHOR_RE 1)
  ∧ getAuthors (E := Sample.plain) (Some "") []
    ≠ (inr (Some (list_to_set
                    (toLowerCase <$> matchAll (Externals := Sample.plain) "" AUTHOR_RE 1))),
       []).
Proof. split; [by constructor | discriminate]. Qed.

Lemma getAuthors_handles_only_witness :
  getAuthors (E := Sample.plain) (Some "Alice (@alice), Bob (@Bob), A. (@ALICE)") []
    = (inr (Some {[ "@alice"; "@bob" ]}), []).
Proof.
  refine (eq_trans (proj1 (getAuthors_handles_only (E := Sample.plain)
                             "Alice (@alice), Bob (@Bob), A. (@ALICE)" [] _ _)) _);
    [discriminate | vm_compute; repeat constructor | vm_compute; reflexivity].
Defined.

(** The two author-list examples of the specification, run on the sample
    directory. *)
Example getAuthors_one_unknown_email :
  getAuthors (E := Sample.plain) (Some "Dave <Dave@Example.org>") []
    = (inr (Some {[ "dave@example.org" ]}),
       [EvSearchUsers "Dave@Example.org";
        EvWarn "No github user found, using email instead: Dave@Example.org"]).
Proof. reflexivity. Qed.

Example getAuthors_one_known_email :
  getAuthors (E := Sample.plain) (Some "Carol <carol@example.org>") []
    = (inr (Some {[ "@carol" ]}), [EvSearchUsers "carol@example.org"]).
Proof. reflexivity. Qed.

(** ** getParsedContent *)

Section ContentProperties.
Context `{E : Externals}.

(** The operation, step by step, once the remote call has answered. *)
Lemma getParsedContent_run (filename sha : string) (tr : trace) (data : option ContentFile) :
  getContent tr filename sha = inr data →
  getParsedContent filename sha tr =
    (if negb (truthy (field data data_content))
     then inl (Thrown (no_content_msg filename sha))
     else if negb (truthy (field data data_path))
     then inl (Thrown (no_path_msg filename sha))
     else if negb (truthy (field data data_name))
     then inl (Thrown (no_name_msg filename sha))
     else
       match requireEncoding (field data data_encoding) filename with
       | inl e => inl e
       | inr _ =>
           match bufferDecode (default "" (field data data_content))
                              (field data data_encoding) with
           | inl e => inl e
           | inr text =>
               match frontmatter text with
               | inl e => inl e
               | inr parsed =>
                   inr {| pc_path := default "" (field data data_path);
                          pc_name := default "" (field data data_name);
                          pc_content := parsed |}
               end
           end
       end,
     tr ++ [EvGetContent filename sha]).
Proof.
  intros Hdata.
  unfold getParsedContent, bind, remote, unless_falsy, throw, ret, lift.
  rewrite Hdata.
  destruct (truthy (field data data_content)); simpl; [|done].
  destruct (truthy (field data data_path)); simpl; [|done].
  destruct (truthy (field data data_name)); simpl; [|done].
  destruct (requireEncoding _ _); [done|].
  destruct (bufferDecode _ _); [done|].
  by destruct (frontmatter _).
Qed.

(** A failure of the remote call is the failure of the operation. *)
Lemma getParsedContent_remote_failure (filename sha : string) (tr : trace) (e : JsError) :
  getContent tr filename sha = inl e →
  getParsedContent filename sha tr = (inl e, tr ++ [EvGetContent filename sha]).
Proof.
  intros Hdata. unfold getParsedContent, bind, remote. by rewrite Hdata.
Qed.

Lemma no_content_msg_mentions (filename sha : string) :
  mentions (no_content_msg filename sha) filename
  ∧ mentions (no_content_msg filename sha) sha.
Proof.
  split.
  - by exists "requested file ", (" at ref sha " +:+ sha +:+ " contains no content").
  - exists ("requested file " +:+ filename +:+ " at ref sha "), " contains no content".
    unfold no_content_msg. by rewrite !append_assoc.
Qed.

Lemma no_path_msg_mentions (filename sha : string) :
  mentions (no_path_msg filename sha) filename
  ∧ mentions (no_path_msg filename sha) sha.
Proof.
  split.
  - by exists "requested file ", (" at ref sha " +:+ sha +:+ " has no path").
  - exists ("requested file " +:+ filename +:+ " at ref sha "), " has no path".
    unfold no_path_msg. by rewrite !append_assoc.
Qed.

Lemma no_name_msg_mentions (filename sha : string) :
  mentions (no_name_msg filename sha) filename
  ∧ mentions (no_name_msg filename sha) sha.
Proof.
  split.
  - by exists "requested file ", (" at ref sha " +:+ sha +:+ " has no name").
  - exists ("requested file " +:+ filename +:+ " at ref sha "), " has no name".
    unfold no_name_msg. by rewrite !append_assoc.
Qed.

Lemma missing_field_msgs_distinct (filename sha : string) :
  no_content_msg filename sha ≠ no_path_msg filename sha
  ∧ no_content_msg filename sha ≠ no_name_msg filename sha
  ∧ no_path_msg filename sha ≠ no_name_msg filename sha.
Proof.
  unfold no_content_msg, no_path_msg, no_name_msg.
  repeat split; intros H; do 4 apply (inj (String.append _)) in H; discriminate.
Qed.

(** C8.  When the remote call succeeds and the record it returns lacks
    its content, its path or its name (an empty string counts as
    lacking, as for [!v]), [getParsedContent] fails.  The
    three conditions are tested one after the other, in that order, and
    each has a message of its own; the three messages differ and each
    mentions the file name and the revision reference. *)
Theorem getParsedContent_missing_field
    (filename sha : string) (tr : trace) (data : option ContentFile) :
  getContent tr filename sha = inr data →
  (truthy (field data data_content) = false →
     getParsedContent filename sha tr
     = (inl (Thrown (no_content_msg filename sha)), tr ++ [EvGetContent filename sha]))
  ∧ (truthy (field data data_content) = true →
     truthy (field data data_path) = false →
     getParsedContent filename sha tr
     = (inl (Thrown (no_path_msg filename sha)), tr ++ [EvGetContent filename sha]))
  ∧ (truthy (field data data_content) = true →
     truthy (field data data_path) = true →
     truthy (field data data_name) = false →
     getParsedContent filename sha tr
     = (inl (Thrown (no_name_msg filename sha)), tr ++ [EvGetContent filename sha]))
  ∧ (truthy (field data data_content) = false
     ∨ truthy (field data data_path) = false
     ∨ truthy (field data data_name) = false →
     ∃ msg, (getParsedContent filename sha tr).1 = inl (Thrown msg)
            ∧ msg ∈ [no_content_msg filename sha; no_path_msg filename sha;
                     no_name_msg filename sha])
  ∧ (no_content_msg filename sha ≠ no_path_msg filename sha
     ∧ no_content_msg filename sha ≠ no_name_msg filename sha
     ∧ no_path_msg filename sha ≠ no_name_msg filename sha)
  ∧ (∀ msg, msg ∈ [no_content_msg filename sha; no_path_msg filename sha;
                   no_name_msg filename sha] →
            mentions msg filename ∧ mentions msg sha).
Proof.
  intros Hdata. rewrite (getParsedContent_run _ _ _ _ Hdata).
  split; [by intros ->|].
  split; [by intros -> ->|].
  split; [by intros -> -> ->|].
  split.
  { intros Hmissing.
    destruct (truthy (field data data_content)); simpl;
      [|eexists; split; [done|repeat constructor]].
    destruct (truthy (field data data_path)); simpl;
      [|eexists; split; [done|repeat constructor]].
    destruct (truthy (field data data_name)); simpl;
      [|eexists; split; [done|repeat constructor]].
    by destruct Hmissing as [?|[?|?]]. }
  split; [apply missing_field_msgs_distinct|].
  intros msg Hmsg.
  apply elem_of_cons in Hmsg as [->|Hmsg]; [apply no_content_msg_mentions|].
  apply elem_of_cons in Hmsg as [->|Hmsg]; [apply no_path_msg_mentions|].
  apply elem_of_cons in Hmsg as [->|Hmsg]; [apply no_name_msg_mentions|].
  by apply elem_of_nil in Hmsg.
Qed.

(** C10.  The three field checks come before the encoding is looked
    at.  For a record whose encoding tag is not supported, the failure
    is the missing-content, missing-path or missing-name message
    whenever one of the three is missing, and it is the encoding
    failure only when all three are there. *)
Theorem getParsedContent_fields_before_encoding
    (filename sha : string) (tr : trace) (data : option ContentFile) (e : JsError) :
  getContent tr filename sha = inr data →
  requireEncoding (field data data_encoding) filename = inl e →
  getParsedContent filename sha tr =
    (inl (if negb (truthy (field data data_content))
          then Thrown (no_content_msg filename sha)
          else if negb (truthy (field data data_path))
          then Thrown (no_path_msg filename sha)
          else if negb (truthy (field data data_name))
          then Thrown (no_name_msg filename sha)
          else e),
     tr ++ [EvGetContent filename sha]).
Proof.
  intros Hdata Henc. rewrite (getParsedContent_run _ _ _ _ Hdata), Henc.
  by repeat case_match.
Qed.

End ContentProperties.

Lemma getParsedContent_missing_field_witness :
  getParsedContent (E := Sample.with_incomplete) "eip-1.md" "head" []
    = (inl (Thrown "requested file eip-1.md at ref sha head contains no content"),
       [EvGetContent "eip-1.md" "head"])
  ∧ getParsedContent (E := Sample.with_incomplete) "eip-2.md" "head" []
    = (inl (Thrown "requested file eip-2.md at ref sha head has no path"),
       [EvGetContent "eip-2.md" "head"])
  ∧ getParsedContent (E := Sample.with_incomplete) "eip-3.md" "head" []
    = (inl (Thrown "requested file eip-3.md at ref sha head has no name"),
       [EvGetContent "eip-3.md" "head"]).
Proof.
  split; [|split].
  - apply (proj1 (getParsedContent_missing_field (E := Sample.with_incomplete)
                    "eip-1.md" "head" [] _ eq_refl)).
    reflexivity.
  - apply (proj1 (proj2 (getParsedContent_missing_field (E := Sample.with_incomplete)
                           "eip-2.md" "head" [] _ eq_refl)));
      reflexivity.
  - apply (proj1 (proj2 (proj2 (getParsedContent_missing_field
                                  (E := Sample.with_incomplete)
                                  "eip-3.md" "head" [] _ eq_refl))));
      reflexivity.
Defined.

Lemma getParsedContent_fields_before_encoding_witness :
  getParsedContent (E := Sample.with_incomplete) "eip-3.md" "head" []
    = (inl (Thrown "requested file eip-3.md at ref sha head has no name"),
       [EvGetContent "eip-3.md" "head"]).
Proof.
  apply (getParsedContent_fields_before_encoding (E := Sample.with_incomplete)
           "eip-3.md" "head" [] _ (Rejected "unsupported encoding for eip-3.md")
           eq_refl eq_refl).
Defined.

(** ** formatFile *)

Section FormatProperties.
Context `{E : Externals}.

(** On the values of its declared type, [getAuthors_any] is [getAuthors]. *)
Lemma getAuthors_any_string (rawAuthorList : string) :
  getAuthors_any (Some (JsString rawAuthorList)) = getAuthors (Some rawAuthorList).
Proof. done. Qed.

Lemma getAuthors_any_absent : getAuthors_any None = getAuthors None.
Proof. done. Qed.

(** The guard takes every falsy value, and only those. *)
Lemma getAuthors_any_falsy (v : option JsValue) (tr : trace) :
  truthy_value v = false → getAuthors_any v tr = (inr None, tr).
Proof.
  destruct v as [[|b|n| |s|what]|]; simpl; intros Hfalsy; try done.
  - by rewrite Hfalsy.
  - by rewrite Hfalsy.
  - by apply getAuthors_falsy.
Qed.

Lemma getAuthors_any_truthy (v : option JsValue) (tr : trace) :
  truthy_value v = true → (getAuthors_any v tr).1 ≠ inr None.
Proof.
  destruct v as [[|b|n| |s|what]|]; simpl; intros Htruthy; try done.
  - rewrite Htruthy. simpl. unfold bind, lift.
    by repeat case_match.
  - rewrite Htruthy. simpl. unfold bind, lift.
    by repeat case_match.
  - rewrite (getAuthors_truthy (Some s) tr Htruthy). by repeat case_match.
  - unfold bind, lift. by repeat case_match.
Qed.

(** The operation, step by step. *)
Lemma formatFile_run (file : ParsedContent) (tr : trace) :
  formatFile file tr =
    let attrs := attributes (pc_content file) in
    match requireFilenameEipNum (pc_name file) with
    | inl e => (inl e, tr)
    | inr filenameEipNum =>
        if negb (truthy_num filenameEipNum)
        then (inl (Thrown (extraction_msg (pc_path file))), tr)
        else
          match call_toLowerCase (attrs !! attr status) tr with
          | (inl e, _) => (inl e, tr)
          | (inr lowered, _) =>
              match getAuthors_any (attrs !! attr author) tr with
              | (inl e, tr') => (inl e, tr')
              | (inr authors, tr') =>
                  match assertCategory (attrs !! attr category) (pc_name file)
                                       (attrs !! attr type) with
                  | inl e => (inl e, tr')
                  | inr classified =>
                      (inr {| ff_eipNum := attrs !! attr eip;
                              ff_status := lowered;
                              ff_authors := authors;
                              ff_name := pc_name file;
                              ff_filenameEipNum := default 0%Z filenameEipNum;
                              ff_category := cl_category classified;
                              ff_type := cl_type classified |}, tr')
                  end
              end
          end
    end.
Proof.
  unfold formatFile. rewrite bind_lift. cbv zeta.
  destruct (requireFilenameEipNum (pc_name file)) as [e|filenameEipNum]; [done|].
  destruct (negb (truthy_num filenameEipNum)); [done|].
  unfold bind at 1.
  destruct (attributes (pc_content file) !! attr status) as [[| | | |s|]|];
    simpl; try done.
  unfold bind at 1.
  destruct (getAuthors_any _ tr) as [[e|authors] tr']; [done|].
  rewrite bind_lift.
  destruct (assertCategory _ _ _) as [e|classified]; [done|].
  by rewrite bind_lift.
Qed.

(** C3, as amended.  When the file name yields a non-zero identifier
    and the status attribute is present and is a string, [formatFile]
    checks the presence of no attribute: the eip attribute is copied as
    it is found (undefined when absent), the author attribute is handed
    as it is found to [getAuthors] (so that an absent one gives
    undefined authors and no interaction), and the category and type
    attributes are handed as they are found to the classification rule.
    The operation then fails only when [getAuthors] or the
    classification rule fails. *)
Theorem formatFile_absent_attributes
    (file : ParsedContent) (tr : trace) (filenameEipNum : option Z) (s : string) :
  let attrs := attributes (pc_content file) in
  requireFilenameEipNum (pc_name file) = inr filenameEipNum →
  truthy_num filenameEipNum = true →
  attrs !! attr status = Some (JsString s) →
  let finish (authors : option (gset string)) (tr' : trace) :=
    match assertCategory (attrs !! attr category) (pc_name file) (attrs !! attr type) with
    | inl e => (inl e, tr')
    | inr classified =>
        (inr {| ff_eipNum := attrs !! attr eip;
                ff_status := toLowerCase s;
                ff_authors := authors;
                ff_name := pc_name file;
                ff_filenameEipNum := default 0%Z filenameEipNum;
                ff_category := cl_category classified;
                ff_type := cl_type classified |}, tr')
    end in
  formatFile file tr =
    match getAuthors_any (attrs !! attr author) tr with
    | (inl e, tr') => (inl e, tr')
    | (inr authors, tr') => finish authors tr'
    end
  ∧ (attrs !! attr author = None → formatFile file tr = finish None tr).
Proof.
  intros attrs Hnum Htruthy Hstatus finish.
  assert (Hrun : formatFile file tr =
    match getAuthors_any (attrs !! attr author) tr with
    | (inl e, tr') => (inl e, tr')
    | (inr authors, tr') => finish authors tr'
    end).
  { rewrite formatFile_run. cbv zeta. fold attrs.
    rewrite Hnum, Htruthy, Hstatus. simpl.
    destruct (getAuthors_any _ tr) as [[e|authors] tr']; [done|].
    unfold finish. by destruct (assertCategory _ _ _). }
  split; [done|].
  intros Hauthor. rewrite Hrun, Hauthor. by rewrite getAuthors_any_falsy.
Qed.

(** C6.  [formatFile], which consults the classification rule twice
    with the same three arguments and reads the category from the first
    answer and the type from the second, is the operation that consults
    it once; the category and the type of its result are those of a
    single classification of the category attribute, the file name and
    the type attribute. *)
Theorem formatFile_classifies_once (file : ParsedContent) (tr : trace) :
  formatFile file tr = formatFile_single_classification file tr
  ∧ (∀ formatted tr',
       formatFile file tr = (inr formatted, tr') →
       ∃ classified,
         assertCategory (attributes (pc_content file) !! attr category) (pc_name file)
                        (attributes (pc_content file) !! attr type) = inr classified
         ∧ (ff_category formatted, ff_type formatted)
           = (cl_category classified, cl_type classified)).
Proof.
  split.
  - rewrite formatFile_run. cbv zeta.
    unfold formatFile_single_classification. rewrite bind_lift.
    destruct (requireFilenameEipNum (pc_name file)) as [e|filenameEipNum]; [done|].
    destruct (negb (truthy_num filenameEipNum)); [done|].
    unfold bind at 1.
    destruct (attributes (pc_content file) !! attr status) as [[| | | |s|]|];
      simpl; try done.
    all: unfold bind at 1.
    all: destruct (getAuthors_any _ tr) as [[e|authors] tr'']; [done|].
    all: rewrite bind_lift.
    all: by destruct (assertCategory _ _ _).
  - intros formatted tr'. rewrite formatFile_run. cbv zeta.
    intros Hrun. repeat case_match; simplify_eq.
    eexists. split; [done|]. done.
Qed.

(** C7.  When the file name yields no identifier (undefined, or the
    falsy number 0), [formatFile] fails with the message that quotes
    the path of the record.  Nothing was read or done before that: the
    history is unchanged and the outcome is the same whatever the
    content of the record. *)
Theorem formatFile_no_identifier
    (file : ParsedContent) (tr : trace) (filenameEipNum : option Z) :
  requireFilenameEipNum (pc_name file) = inr filenameEipNum →
  truthy_num filenameEipNum = false →
  formatFile file tr = (inl (Thrown (extraction_msg (pc_path file))), tr)
  ∧ mentions (extraction_msg (pc_path file)) (pc_path file)
  ∧ (∀ content',
       formatFile {| pc_path := pc_path file; pc_name := pc_name file;
                     pc_content := content' |} tr
       = formatFile file tr).
Proof.
  intros Hnum Hfalsy.
  assert (Hany : ∀ content',
    formatFile {| pc_path := pc_path file; pc_name := pc_name file;
                  pc_content := content' |} tr
    = (inl (Thrown (extraction_msg (pc_path file))), tr)).
  { intros content'. rewrite formatFile_run. simpl. by rewrite Hnum, Hfalsy. }
  assert (Hfile : formatFile file tr = (inl (Thrown (extraction_msg (pc_path file))), tr)).
  { destruct file as [p n c]. apply (Hany c). }
  split; [done|]. split.
  - by exists ("Failed to extract eip number from file " +:+ dquote), dquote.
  - intros content'. by rewrite Hany, Hfile.
Qed.

End FormatProperties.

Lemma formatFile_absent_attributes_witness :
  formatFile (E := Sample.plain) Sample.bare_eip []
    = (inr {| ff_eipNum := None;
              ff_status := "last call";
              ff_authors := None;
              ff_name := "eip-1234.md";
              ff_filenameEipNum := 1234;
              ff_category := None;
              ff_type := "meta" |}, []).
Proof.
  apply (proj2 (formatFile_absent_attributes (E := Sample.plain) Sample.bare_eip []
                  (Some 1234%Z) "Last Call" eq_refl eq_refl eq_refl) eq_refl).
Defined.

(** The claim of C3 fails on the status attribute: the file name yields
    the identifier 1234, the status is absent, and [formatFile] itself
    fails, on [undefined.toLowerCase()]. *)
Lemma formatFile_fails_without_status :
  requireFilenameEipNum (Externals := Sample.plain) (pc_name Sample.eip_without_status)
    = inr (Some 1234%Z)
  ∧ attributes (pc_content Sample.eip_without_status) !! attr (Externals := Sample.plain) status
    = None
  ∧ formatFile (E := Sample.plain) Sample.eip_without_status []
    = (inl (TypeError "Cannot read properties of undefined (reading 'toLowerCase')"), []).
Proof. repeat split. Qed.

Lemma formatFile_classifies_once_witness :
  ∃ classified,
    Sample.assertCategory (Some (JsString "Core")) "eip-1234.md"
                          (Some (JsString "Standards Track")) = inr classified
    ∧ (Some "core", "standards track") = (cl_category classified, cl_type classified).
Proof.
  exact (proj2 (formatFile_classifies_once (E := Sample.plain) Sample.full_eip [])
               _ _ eq_refl).
Defined.

Lemma formatFile_no_identifier_witness :
  formatFile (E := Sample.plain) Sample.readme []
    = (inl (Thrown (extraction_msg "EIPS/README.md")), []).
Proof.
  apply (proj1 (formatFile_no_identifier (E := Sample.plain) Sample.readme [] None
                  eq_refl eq_refl)).
Defined.

(** ** Independence of the history *)

Lemma fixed_ret {A} (a : A) : fixed (ret a).
Proof. exists (inr a), []. intros tr. unfold ret. by rewrite app_nil_r. Qed.

Lemma fixed_throw {A} (e : JsError) : fixed (throw (A := A) e).
Proof. exists (inl e), []. intros tr. unfold throw. by rewrite app_nil_r. Qed.

Lemma fixed_lift {A} (r : JsError + A) : fixed (lift r).
Proof. exists r, []. intros tr. unfold lift. by rewrite app_nil_r. Qed.

Lemma fixed_emit (ev : event) : fixed (emit ev).
Proof. by exists (inr tt), [ev]. Qed.

Lemma fixed_remote {A} (ev : event) (oracle : trace → JsError + A) :
  (∀ tr1 tr2, oracle tr1 = oracle tr2) → fixed (remote ev oracle).
Proof.
  intros Hsame. exists (oracle []), [ev]. intros tr. unfold remote.
  by rewrite (Hsame tr []).
Qed.

Lemma fixed_bind {A B} (m : Async A) (k : A → Async B) :
  fixed m → (∀ a, fixed (k a)) → fixed (bind m k).
Proof.
  intros ([e|a] & evs & Hm) Hk.
  - exists (inl e), evs. intros tr. unfold bind. by rewrite Hm.
  - destruct (Hk a) as (r & evs' & Hka).
    exists r, (evs ++ evs'). intros tr. unfold bind.
    by rewrite Hm, Hka, app_assoc.
Qed.

Lemma fixed_mapM {A B} (f : A → Async B) (xs : list A) :
  (∀ x, fixed (f x)) → fixed (mapM f xs).
Proof.
  intros Hf. induction xs as [|x xs IH]; simpl.
  - apply fixed_ret.
  - apply fixed_bind; [apply Hf|]. intros y.
    apply fixed_bind; [apply IH|]. intros ys. apply fixed_ret.
Qed.

Create HintDb fixed_db.
#[global] Hint Resolve fixed_ret fixed_throw fixed_lift fixed_emit fixed_mapM : fixed_db.

Section Determinism.
Context `{E : Externals}.

(** The user search answers a query the same way at all times. *)
Hypothesis searchUsers_fixed : ∀ tr1 tr2 q, searchUsers tr1 q = searchUsers tr2 q.

Lemma findUserByEmail_fixed (email : string) : fixed (findUserByEmail email).
Proof.
  unfold findUserByEmail. apply fixed_bind.
  - apply fixed_remote. intros tr1 tr2. apply searchUsers_fixed.
  - intros results.
    destruct (0 <? total_count results)%Z, (items results);
      try apply fixed_ret;
      (apply fixed_bind; [apply fixed_emit | intros _; apply fixed_ret]).
Qed.

Lemma resolveAuthor_fixed (author : string) : fixed (resolveAuthor author).
Proof.
  unfold resolveAuthor. destruct (starts_with_at author); [apply fixed_ret|].
  apply fixed_bind; [apply findUserByEmail_fixed|]. intros q. apply fixed_ret.
Qed.

Lemma getAuthors_fixed (rawAuthorList : option string) : fixed (getAuthors rawAuthorList).
Proof.
  unfold getAuthors. destruct (negb (truthy rawAuthorList)); [apply fixed_ret|].
  apply fixed_bind; [apply fixed_mapM, resolveAuthor_fixed|].
  intros resolved. apply fixed_ret.
Qed.

Lemma getAuthors_any_fixed (v : option JsValue) : fixed (getAuthors_any v).
Proof.
  assert (Hother : ∀ other : JsValue,
    fixed (if negb (truthy_value (Some other)) then ret None
           else
             bind (lift (matchAllValue other AUTHOR_RE 1)) (λ authors,
             bind (mapM resolveAuthor authors) (λ resolved,
             ret (Some (list_to_set resolved : gset string)))))).
  { intros other. destruct (negb (truthy_value (Some other))); [apply fixed_ret|].
    apply fixed_bind; [apply fixed_lift|]. intros authors.
    apply fixed_bind; [apply fixed_mapM, resolveAuthor_fixed|].
    intros resolved. apply fixed_ret. }
  destruct v as [[|b|n| |s|what]|]; try apply Hother; apply getAuthors_fixed.
Qed.

Lemma formatFile_fixed (file : ParsedContent) : fixed (formatFile file).
Proof.
  unfold formatFile. apply fixed_bind; [apply fixed_lift|].
  intros filenameEipNum.
  destruct (negb (truthy_num filenameEipNum)); [apply fixed_throw|].
  apply fixed_bind.
  { unfold call_toLowerCase. repeat case_match; auto with fixed_db. }
  intros st. apply fixed_bind; [apply getAuthors_any_fixed|].
  intros authors. apply fixed_bind; [apply fixed_lift|].
  intros forCategory. apply fixed_bind; [apply fixed_lift|].
  intros forType. apply fixed_ret.
Qed.

End Determinism.

(** ** getFileDiff *)

Section DiffProperties.
Context `{E : Externals}.

Local Open Scope async_scope.

(** Once the head revision is fetched and the fetch of the base
    revision has failed, what remains is to format the head content
    twice. *)
Lemma getFileDiff_fallback_run
    (file : File) (tr : trace) (pr : PullRequest) (head : ParsedContent)
    (tr1 : trace) (e : JsError) (tr2 : trace) :
  requirePr tr = inr pr →
  getParsedContent (filename file) (head_sha pr) (tr ++ [EvRequirePr]) = (inr head, tr1) →
  getParsedContent (filename file) (base_sha pr) tr1 = (inl e, tr2) →
  getFileDiff file tr =
    (formattedHead <- formatFile head ;;
     formattedBase <- formatFile head ;;
     ret {| fd_head := formattedHead; fd_base := formattedBase |}) tr2.
Proof.
  intros Hpr Hhead Hbase.
  unfold getFileDiff. unfold bind at 1. unfold remote. rewrite Hpr.
  cbv zeta. unfold bind at 1. rewrite Hhead.
  unfold bind at 1. unfold catch. rewrite Hbase. reflexivity.
Qed.

(** C1, as amended.  When the change-request context is there, the
    fetch of the head revision succeeds and the fetch of the base
    revision fails, for whatever reason, the failure is not passed on:
    [getFileDiff] goes on to format the head content twice, once as the
    head and once as the base.  If formatting the head content fails,
    that failure (not the one of the fetch) is the outcome.  If it
    succeeds and the user search answers a query the same way at all
    times, the second formatting repeats the interactions of the first
    and [getFileDiff] returns a FileDiff whose base equals its head. *)
Theorem getFileDiff_base_falls_back_to_head
    (file : File) (tr : trace) (pr : PullRequest) (head : ParsedContent)
    (tr1 : trace) (e : JsError) (tr2 : trace) :
  requirePr tr = inr pr →
  getParsedContent (filename file) (head_sha pr) (tr ++ [EvRequirePr]) = (inr head, tr1) →
  getParsedContent (filename file) (base_sha pr) tr1 = (inl e, tr2) →
  getFileDiff file tr =
    (formattedHead <- formatFile head ;;
     formattedBase <- formatFile head ;;
     ret {| fd_head := formattedHead; fd_base := formattedBase |}) tr2
  ∧ (∀ e' tr3,
       formatFile head tr2 = (inl e', tr3) → getFileDiff file tr = (inl e', tr3))
  ∧ (∀ formatted tr3,
       (∀ t1 t2 q, searchUsers t1 q = searchUsers t2 q) →
       formatFile head tr2 = (inr formatted, tr3) →
       ∃ evs,
         tr3 = tr2 ++ evs
         ∧ formatFile head tr3 = (inr formatted, tr3 ++ evs)
         ∧ getFileDiff file tr
           = (inr {| fd_head := formatted; fd_base := formatted |}, tr2 ++ evs ++ evs)).
Proof.
  intros Hpr Hhead Hbase.
  pose proof (getFileDiff_fallback_run _ _ _ _ _ _ _ Hpr Hhead Hbase) as Hrun.
  split; [exact Hrun|]. split.
  - intros e' tr3 Hformat. rewrite Hrun. unfold bind. by rewrite Hformat.
  - intros formatted tr3 Hfixed Hformat.
    destruct (formatFile_fixed Hfixed head) as (r & evs & Hsame).
    assert (r = inr formatted ∧ tr3 = tr2 ++ evs) as [-> ->]
      by (rewrite Hsame in Hformat; by simplify_eq).
    exists evs. split; [done|]. split; [apply Hsame|].
    rewrite Hrun. unfold bind, ret. rewrite !Hsame. by rewrite <- app_assoc.
Qed.

End DiffProperties.

(** The claim of C1 fails in two ways.  First, when the head content
    cannot be formatted: the file is new (the base fetch fails with Not
    Found), the head fetch succeeds, and [getFileDiff] fails with the
    extraction error instead of returning a FileDiff.  Second, when the
    user search does not answer the same way at all times: in the late
    directory an address is unknown when the head is formatted and known
    when the base is, and the base differs from the head although both
    come from the head content. *)
Lemma getFileDiff_base_not_always_head :
  ((getParsedContent (E := Sample.with_new_readme) "README.md" "head" [EvRequirePr]).1
     = inr (Sample.parsed "README.md" [("status", "Draft")])
   ∧ (getParsedContent (E := Sample.with_new_readme) "README.md" "base"
        [EvRequirePr; EvGetContent "README.md" "head"]).1
     = inl (Rejected "Not Found")
   ∧ getFileDiff (E := Sample.with_new_readme) {| filename := "README.md" |} []
     = (inl (Thrown (extraction_msg "EIPS/README.md")),
        [EvRequirePr; EvGetContent "README.md" "head"; EvGetContent "README.md" "base"]))
  ∧ ((getParsedContent (E := Sample.with_new_eip_late) "eip-1234.md" "head" [EvRequirePr]).1
       = inr Sample.full_eip
     ∧ (getParsedContent (E := Sample.with_new_eip_late) "eip-1234.md" "base"
          [EvRequirePr; EvGetContent "eip-1234.md" "head"]).1
       = inl (Rejected "Not Found")
     ∧ match (getFileDiff (E := Sample.with_new_eip_late)
                {| filename := "eip-1234.md" |} []).1 with
       | inr diff =>
           ff_authors (fd_head diff)
             = Some {[ "@alice"; "carol@example.org"; "dave@example.org" ]}
           ∧ ff_authors (fd_base diff) = Some {[ "@alice"; "@dave" ]}
           ∧ fd_base diff ≠ fd_head diff
       | inl _ => False
       end).
Proof.
  split; [repeat split|].
  split; [vm_compute; reflexivity|]. split; [vm_compute; reflexivity|].
  destruct (getFileDiff _ _).1 as [e|diff] eqn:Hrun.
  { vm_compute in Hrun. discriminate Hrun. }
  assert (Hhead : ff_authors (fd_head diff)
                  = Some {[ "@alice"; "carol@example.org"; "dave@example.org" ]}).
  { apply (f_equal (λ r, match r with
                         | inr d => ff_authors (fd_head d)
                         | inl _ => None
                         end)) in Hrun.
    rewrite <- Hrun. vm_compute. reflexivity. }
  assert (Hbase : ff_authors (fd_base diff) = Some {[ "@alice"; "@dave" ]}).
  { apply (f_equal (λ r, match r with
                         | inr d => ff_authors (fd_base d)
                         | inl _ => None
                         end)) in Hrun.
    rewrite <- Hrun. vm_compute. reflexivity. }
  split; [done|]. split; [done|].
  intros H. rewrite H, Hhead in Hbase.
  apply (f_equal (fmap size)) in Hbase. vm_compute in Hbase. discriminate Hbase.
Qed.

Lemma getFileDiff_base_falls_back_to_head_witness :
  ∃ evs,
    [EvRequirePr; EvGetContent "eip-1234.md" "head"; EvGetContent "eip-1234.md" "base"]
    ++ Sample.author_line_events
    = [EvRequirePr; EvGetContent "eip-1234.md" "head"; EvGetContent "eip-1234.md" "base"]
      ++ evs
    ∧ formatFile (E := Sample.with_new_eip) Sample.full_eip
        ([EvRequirePr; EvGetContent "eip-1234.md" "head"; EvGetContent "eip-1234.md" "base"]
         ++ Sample.author_line_events)
      = (inr Sample.formatted_head,
         ([EvRequirePr; EvGetContent "eip-1234.md" "head"; EvGetContent "eip-1234.md" "base"]
          ++ Sample.author_line_events) ++ evs)
    ∧ getFileDiff (E := Sample.with_new_eip) {| filename := "eip-1234.md" |} []
      = (inr {| fd_head := Sample.formatted_head; fd_base := Sample.formatted_head |},
         [EvRequirePr; EvGetContent "eip-1234.md" "head"; EvGetContent "eip-1234.md" "base"]
         ++ evs ++ evs).
Proof.
  refine (proj2 (proj2 (getFileDiff_base_falls_back_to_head (E := Sample.with_new_eip)
            {| filename := "eip-1234.md" |} []
            {| head_sha := "head"; base_sha := "base" |}
            Sample.full_eip
            [EvRequirePr; EvGetContent "eip-1234.md" "head"]
            (Rejected "Not Found")
            [EvRequirePr; EvGetContent "eip-1234.md" "head"; EvGetContent "eip-1234.md" "base"]
            _ _ _))
          Sample.formatted_head
          ([EvRequirePr; EvGetContent "eip-1234.md" "head"; EvGetContent "eip-1234.md" "base"]
           ++ Sample.author_line_events) _ _).
  - reflexivity.
  - vm_compute. reflexivity.
  - vm_compute. reflexivity.
  - intros t1 t2 q. reflexivity.
  - vm_compute. reflexivity.
Defined.

(** * Further properties of the module *)

(** ** Lower case *)

Lemma lower_ascii_idemp (c : ascii) : lower_ascii (lower_ascii c) = lower_ascii c.
Proof. by destruct c as [[] [] [] [] [] [] [] []]. Qed.

Lemma toLowerCase_idemp (s : string) : toLowerCase (toLowerCase s) = toLowerCase s.
Proof.
  induction s as [|c s IH]; [done|].
  simpl. by rewrite lower_ascii_idemp, IH.
Qed.

(** ** What [mapM] keeps *)

Lemma mapM_Forall2 {A B} (f : A → Async B) (R : A → B → Prop) (xs : list A) :
  (∀ x tr y tr', f x tr = (inr y, tr') → R x y) →
  ∀ tr ys tr', mapM f xs tr = (inr ys, tr') → Forall2 R xs ys.
Proof.
  intros Hf. induction xs as [|x xs IH]; intros tr ys tr' Hrun; simpl in Hrun.
  - unfold ret in Hrun. simplify_eq. constructor.
  - unfold bind in Hrun at 1.
    destruct (f x tr) as [[e|y] tr1] eqn:Hx; [done|].
    unfold bind in Hrun at 1.
    destruct (mapM f xs tr1) as [[e|ys'] tr2] eqn:Hxs; [done|].
    unfold ret in Hrun. simplify_eq.
    constructor; [by eapply Hf | by eapply IH].
Qed.

Lemma size_list_to_set_le (l : list string) :
  (size (list_to_set l : gset string) ≤ length l)%nat.
Proof.
  induction l as [|x l IH].
  - change (size (∅ : gset string) ≤ 0)%nat. by rewrite size_empty.
  - change (size ({[x]} ∪ list_to_set l : gset string) ≤ S (length l))%nat.
    rewrite size_union_alt, size_singleton.
    assert (size (list_to_set l ∖ {[x]} : gset string)
            ≤ size (list_to_set l : gset string))%nat
      by (apply subseteq_size, subseteq_difference_l; done).
    lia.
Qed.

Lemma searches_app (tr1 tr2 : trace) : searches (tr1 ++ tr2) = searches tr1 ++ searches tr2.
Proof. apply filter_app. Qed.

Lemma warnings_app (tr1 tr2 : trace) : warnings (tr1 ++ tr2) = warnings tr1 ++ warnings tr2.
Proof. apply filter_app. Qed.

Section MoreAuthorProperties.
Context `{E : Externals}.

(** What one token can resolve to. *)
Lemma resolveAuthor_resolves_to (author : string) (tr : trace) (resolved : string)
    (tr' : trace) :
  resolveAuthor author tr = (inr resolved, tr') → resolves_to author resolved.
Proof.
  unfold resolveAuthor, resolves_to.
  destruct (starts_with_at author) eqn:Hat.
  - unfold ret. intros [= <- _]. by left.
  - unfold bind, findUserByEmail, bind, remote.
    destruct (searchUsers tr author) as [e|results]; [done|].
    destruct (0 <? total_count results)%Z, (items results) as [|first rest];
      unfold bind, emit, ret; simpl; intros [= <- _]; try by left.
    right. split; [done|]. by exists first.
Qed.

Lemma resolves_to_lowercase (token resolved : string) :
  resolves_to token resolved → toLowerCase resolved = resolved.
Proof.
  intros [->|[_ [user ->]]]; apply toLowerCase_idemp.
Qed.

(** The searches that resolving one token adds to the history. *)
Lemma resolveAuthor_searches (author : string) (tr : trace) (resolved : string)
    (tr' : trace) :
  resolveAuthor author tr = (inr resolved, tr') →
  searches tr' = searches tr
                 ++ (if starts_with_at author then [] else [EvSearchUsers author]).
Proof.
  unfold resolveAuthor.
  destruct (starts_with_at author) eqn:Hat.
  - unfold ret. intros [= _ <-]. by rewrite app_nil_r.
  - unfold bind, findUserByEmail, bind, remote.
    destruct (searchUsers tr author) as [e|results]; [done|].
    destruct (0 <? total_count results)%Z, (items results) as [|first rest];
      unfold bind, emit, ret; simpl; intros [= _ <-];
      rewrite !searches_app; change (searches [EvSearchUsers author]) with [EvSearchUsers author];
      try done;
      change (searches [EvWarn ("No github user found, using email instead: " +:+ author)])
        with (@nil event); by rewrite app_nil_r.
Qed.

Lemma mapM_resolveAuthor_searches (authors : list string) :
  ∀ tr resolved tr',
    mapM resolveAuthor authors tr = (inr resolved, tr') →
    searches tr' = searches tr
                   ++ (EvSearchUsers <$> filter (λ a, starts_with_at a = false) authors).
Proof.
  induction authors as [|a authors IH]; intros tr resolved tr' Hrun; simpl in Hrun.
  - unfold ret in Hrun. simplify_eq. by rewrite app_nil_r.
  - unfold bind in Hrun at 1.
    destruct (resolveAuthor a tr) as [[e|r] tr1] eqn:Ha; [done|].
    unfold bind in Hrun at 1.
    destruct (mapM resolveAuthor authors tr1) as [[e|rs] tr2] eqn:Hrest; [done|].
    unfold ret in Hrun. simplify_eq.
    rewrite (IH _ _ _ Hrest), (resolveAuthor_searches _ _ _ _ Ha).
    destruct (starts_with_at a) eqn:Hat.
    + rewrite filter_cons_False by (by rewrite Hat). by rewrite app_nil_r.
    + rewrite filter_cons_True by done. by rewrite <- app_assoc.
Qed.

(** What a successful run on a present list went through. *)
Lemma getAuthors_success (raw : string) (tr : trace) (authors : gset string) (tr' : trace) :
  getAuthors (Some raw) tr = (inr (Some authors), tr') →
  raw ≠ ""
  ∧ ∃ resolved,
      mapM resolveAuthor (matchAll raw AUTHOR_RE 1) tr = (inr resolved, tr')
      ∧ authors = list_to_set resolved.
Proof.
  intros Hrun. destruct (truthy (Some raw)) eqn:Ht.
  - rewrite (getAuthors_truthy _ _ Ht) in Hrun. simpl in Hrun.
    destruct (mapM _ _ tr) as [[e|resolved] tr1]; [done|]. simplify_eq.
    split; [by destruct raw|]. by exists resolved.
  - by rewrite (getAuthors_falsy _ _ Ht) in Hrun.
Qed.

(** X1.  Every author that [getAuthors] returns is in lower case. *)
Theorem getAuthors_members_lowercase
    (rawAuthorList : option string) (tr : trace) (authors : gset string) (tr' : trace) :
  getAuthors rawAuthorList tr = (inr (Some authors), tr') →
  ∀ a, a ∈ authors → toLowerCase a = a.
Proof.
  intros Hrun a Ha.
  destruct rawAuthorList as [raw|]; [|by rewrite getAuthors_falsy in Hrun].
  apply getAuthors_success in Hrun as (_ & resolved & Hmap & ->).
  apply elem_of_list_to_set in Ha.
  apply (mapM_Forall2 _ resolves_to) in Hmap;
    [|intros ????; apply resolveAuthor_resolves_to].
  apply list_elem_of_lookup in Ha as [i Hi].
  destruct (Forall2_lookup_r _ _ _ _ _ Hmap Hi) as (token & _ & Hres).
  by eapply resolves_to_lowercase.
Qed.

(** X2.  The set that [getAuthors] returns is made of the tokens of the
    list and of nothing else: it has at most as many members as there
    are tokens, each member is what some token resolves to (the token
    lowercased, or [@] and a login lowercased when the token is an
    address), and every handle of the list is in it, lowercased. *)
Theorem getAuthors_members_from_tokens
    (raw : string) (tr : trace) (authors : gset string) (tr' : trace) :
  getAuthors (Some raw) tr = (inr (Some authors), tr') →
  (size authors ≤ length (matchAll raw AUTHOR_RE 1))%nat
  ∧ (∀ a, a ∈ authors → ∃ token, token ∈ matchAll raw AUTHOR_RE 1 ∧ resolves_to token a)
  ∧ (∀ token, token ∈ matchAll raw AUTHOR_RE 1 → starts_with_at token = true →
       toLowerCase token ∈ authors).
Proof.
  intros Hrun.
  apply getAuthors_success in Hrun as (_ & resolved & Hmap & ->).
  assert (Hall : Forall2 (λ token r, resolves_to token r
                            ∧ (starts_with_at token = true → r = toLowerCase token))
                         (matchAll raw AUTHOR_RE 1) resolved).
  { eapply (mapM_Forall2 resolveAuthor); [|exact Hmap].
    intros token h r h' Hone. split; [by eapply resolveAuthor_resolves_to|].
    intros Hat. rewrite (resolveAuthor_handle _ _ Hat) in Hone. by simplify_eq. }
  split; [|split].
  - rewrite (Forall2_length _ _ _ Hall). apply size_list_to_set_le.
  - intros a Ha. apply elem_of_list_to_set, list_elem_of_lookup in Ha as [i Hi].
    destruct (Forall2_lookup_r _ _ _ _ _ Hall Hi) as (token & Htoken & Hres & _).
    exists token. split; [|done]. by eapply list_elem_of_lookup_2.
  - intros token Htoken Hat. apply list_elem_of_lookup in Htoken as [i Hi].
    destruct (Forall2_lookup_l _ _ _ _ _ Hall Hi) as (r & Hr & _ & Heq).
    rewrite <- (Heq Hat). apply elem_of_list_to_set. by eapply list_elem_of_lookup_2.
Qed.

(** X3.  When [getAuthors] returns a set, it has issued exactly one user
    search for each token that does not begin with [@], in the order of
    the list, and none for the handles. *)
Theorem getAuthors_one_search_per_address
    (raw : string) (tr : trace) (authors : gset string) (tr' : trace) :
  getAuthors (Some raw) tr = (inr (Some authors), tr') →
  searches tr' =
    searches tr
    ++ (EvSearchUsers <$> filter (λ a, starts_with_at a = false) (matchAll raw AUTHOR_RE 1)).
Proof.
  intros Hrun.
  apply getAuthors_success in Hrun as (_ & resolved & Hmap & _).
  by eapply mapM_resolveAuthor_searches.
Qed.

(** X4.  A failure of the user search is not absorbed: when the search
    for one address of a non-empty list fails whenever it is issued,
    [getAuthors] fails, and returns neither a set nor undefined. *)
Theorem getAuthors_search_failure_propagates
    (raw : string) (tr : trace) (token : string) :
  raw ≠ "" →
  token ∈ matchAll raw AUTHOR_RE 1 →
  starts_with_at token = false →
  (∀ history, ∃ e, searchUsers history token = inl e) →
  ∃ e tr', getAuthors (Some raw) tr = (inl e, tr').
Proof.
  intros Hne Htoken Hat Hdown.
  rewrite getAuthors_truthy by (by destruct raw). simpl.
  destruct (mapM resolveAuthor _ tr) as [[e|resolved] tr1] eqn:Hmap; [by eauto|].
  exfalso.
  apply (mapM_Forall2 _ (λ a _, ∃ h r h', resolveAuthor a h = (inr r, h'))) in Hmap;
    [|by eauto].
  apply list_elem_of_lookup in Htoken as [i Hi].
  destruct (Forall2_lookup_l _ _ _ _ _ Hmap Hi) as (_ & _ & h & r & h' & Hone).
  destruct (Hdown h) as [e He].
  unfold resolveAuthor in Hone. rewrite Hat in Hone.
  unfold bind, findUserByEmail, bind, remote in Hone. by rewrite He in Hone.
Qed.

End MoreAuthorProperties.

Lemma getAuthors_members_lowercase_witness :
  "@carol" ∈ ({[ "@alice"; "@carol"; "dave@example.org" ]} : gset string)
  ∧ toLowerCase "@carol" = "@carol".
Proof.
  assert (Hmember : "@carol" ∈ ({[ "@alice"; "@carol"; "dave@example.org" ]} : gset string)).
  { apply elem_of_union. left. apply elem_of_union. right. by apply elem_of_singleton. }
  split; [exact Hmember|].
  refine (getAuthors_members_lowercase (E := Sample.plain)
            (Some Sample.author_line) []
            {[ "@alice"; "@carol"; "dave@example.org" ]}
            Sample.author_line_events _ "@carol" Hmember).
  vm_compute. reflexivity.
Defined.

Lemma getAuthors_members_from_tokens_witness :
  (size ({[ "@alice"; "@carol"; "dave@example.org" ]} : gset string)
   ≤ length (matchAll (Externals := Sample.plain) Sample.author_line AUTHOR_RE 1))%nat
  ∧ (∀ a, a ∈ ({[ "@alice"; "@carol"; "dave@example.org" ]} : gset string) →
       ∃ token, token ∈ matchAll (Externals := Sample.plain) Sample.author_line AUTHOR_RE 1
                ∧ resolves_to token a)
  ∧ (∀ token, token ∈ matchAll (Externals := Sample.plain) Sample.author_line AUTHOR_RE 1 →
       starts_with_at token = true →
       toLowerCase token ∈ ({[ "@alice"; "@carol"; "dave@example.org" ]} : gset string)).
Proof.
  refine (getAuthors_members_from_tokens (E := Sample.plain)
            Sample.author_line [] _ Sample.author_line_events _).
  vm_compute. reflexivity.
Defined.

Lemma getAuthors_one_search_per_address_witness :
  searches Sample.author_line_events
  = [EvSearchUsers "carol@example.org"; EvSearchUsers "dave@example.org"].
Proof.
  refine (eq_trans (getAuthors_one_search_per_address (E := Sample.plain)
                      Sample.author_line []
                      {[ "@alice"; "@carol"; "dave@example.org" ]}
                      Sample.author_line_events _) _);
    vm_compute; reflexivity.
Defined.

Lemma getAuthors_search_failure_propagates_witness :
  ∃ e tr', getAuthors (E := Sample.offline) (Some Sample.author_line) [] = (inl e, tr').
Proof.
  refine (getAuthors_search_failure_propagates (E := Sample.offline)
            Sample.author_line [] "dave@example.org" _ _ _ _).
  - discriminate.
  - vm_compute. repeat constructor.
  - reflexivity.
  - intros history. eexists. reflexivity.
Defined.

(** ** More on getParsedContent *)

Section MoreContentProperties.
Context `{E : Externals}.

(** What the operation leaves in the history. *)
Lemma getParsedContent_history (filename sha : string) (tr : trace) :
  (getParsedContent filename sha tr).2 = tr ++ [EvGetContent filename sha].
Proof.
  destruct (getContent tr filename sha) as [e|data] eqn:Hdata.
  - by rewrite (getParsedContent_remote_failure _ _ _ _ Hdata).
  - by rewrite (getParsedContent_run _ _ _ _ Hdata).
Qed.

(** X5.  Whatever its outcome, [getParsedContent] makes one content
    request, for the file and the revision it was given, and nothing
    else: no user search and no warning. *)
Theorem getParsedContent_one_request (filename sha : string) (tr : trace) :
  (getParsedContent filename sha tr).2 = tr ++ [EvGetContent filename sha]
  ∧ searches (getParsedContent filename sha tr).2 = searches tr
  ∧ warnings (getParsedContent filename sha tr).2 = warnings tr.
Proof.
  rewrite getParsedContent_history. split; [done|]. split.
  - rewrite searches_app.
    change (searches [EvGetContent filename sha]) with (@nil event).
    apply app_nil_r.
  - rewrite warnings_app.
    change (warnings [EvGetContent filename sha]) with (@nil event).
    apply app_nil_r.
Qed.

(** X6.  [getParsedContent] succeeds exactly when the remote call
    answers with a record whose content, path and name are non-empty
    strings, the encoding of the record passes [requireEncoding], the
    content decodes and the decoded text parses.  The path and the name
    of the result are those of the record (not the requested file name),
    and its content is the parsed text. *)
Theorem getParsedContent_success_iff
    (filename sha : string) (tr : trace) (parsed : ParsedContent) (tr' : trace) :
  getParsedContent filename sha tr = (inr parsed, tr')
  ↔ tr' = tr ++ [EvGetContent filename sha]
    ∧ ∃ data content text,
        getContent tr filename sha = inr (Some data)
        ∧ data_content data = Some content ∧ content ≠ ""
        ∧ data_path data = Some (pc_path parsed) ∧ pc_path parsed ≠ ""
        ∧ data_name data = Some (pc_name parsed) ∧ pc_name parsed ≠ ""
        ∧ requireEncoding (data_encoding data) filename = inr tt
        ∧ bufferDecode content (data_encoding data) = inr text
        ∧ frontmatter text = inr (pc_content parsed).
Proof.
  split.
  - intros Hrun.
    destruct (getContent tr filename sha) as [e|data] eqn:Hdata.
    { by rewrite (getParsedContent_remote_failure _ _ _ _ Hdata) in Hrun. }
    rewrite (getParsedContent_run _ _ _ _ Hdata) in Hrun.
    destruct data as [[content encoding path name]|]; simpl in Hrun; [|done].
    destruct content as [[|c content]|]; simpl in Hrun; try done.
    destruct path as [[|p path]|]; simpl in Hrun; try done.
    destruct name as [[|n name]|]; simpl in Hrun; try done.
    destruct (requireEncoding encoding filename) as [e|[]] eqn:Henc; [done|].
    destruct (bufferDecode _ encoding) as [e|text] eqn:Hdec; [done|].
    destruct (frontmatter text) as [e|fm] eqn:Hfm; [done|].
    injection Hrun as <- <-. split; [done|].
    eexists _, _, _. simpl. repeat split; try done; eauto.
  - intros (-> & data & content & text & Hdata & Hc & Hcne & Hp & Hpne & Hn & Hnne
            & Henc & Hdec & Hfm).
    rewrite (getParsedContent_run _ _ _ _ Hdata). simpl.
    rewrite Hc, Hp, Hn.
    destruct content as [|c content]; [done|].
    destruct parsed as [[|p path] [|n name] fm]; try done.
    simpl in *. by rewrite Henc, Hdec, Hfm.
Qed.

End MoreContentProperties.

Lemma getParsedContent_success_iff_witness :
  getParsedContent (E := Sample.with_new_eip) "eip-1234.md" "head" []
  = (inr Sample.full_eip, [EvGetContent "eip-1234.md" "head"]).
Proof.
  apply (proj2 (getParsedContent_success_iff (E := Sample.with_new_eip)
                  "eip-1234.md" "head" [] Sample.full_eip
                  [EvGetContent "eip-1234.md" "head"])).
  split; [reflexivity|].
  exists {| data_content := Some Sample.eip_text;
            data_encoding := Some "utf8";
            data_path := Some "EIPS/eip-1234.md";
            data_name := Some "eip-1234.md" |}, Sample.eip_text, Sample.eip_text.
  repeat split; discriminate.
Defined.

(** ** More on formatFile *)

Section MoreFormatProperties.
Context `{E : Externals}.

(** X7.  The status is read before the authors are resolved: when the
    file name yields a non-zero identifier and the status attribute is
    absent, [formatFile] fails on [undefined.toLowerCase()] without any
    user search, whatever the author attribute holds. *)
Theorem formatFile_status_before_authors
    (file : ParsedContent) (tr : trace) (filenameEipNum : option Z) :
  requireFilenameEipNum (pc_name file) = inr filenameEipNum →
  truthy_num filenameEipNum = true →
  attributes (pc_content file) !! attr status = None →
  formatFile file tr
  = (inl (TypeError "Cannot read properties of undefined (reading 'toLowerCase')"), tr).
Proof.
  intros Hnum Htruthy Hstatus.
  rewrite formatFile_run. cbv zeta. by rewrite Hnum, Htruthy, Hstatus.
Qed.

(** X15.  A status that is present but is not a string is no better
    than an absent one: when the file name yields a non-zero identifier
    and the status attribute holds null, a boolean, a number or anything
    else that is not a string, [formatFile] fails with a TypeError on
    the call of [toLowerCase], without any user search. *)
Theorem formatFile_status_not_a_string
    (file : ParsedContent) (tr : trace) (filenameEipNum : option Z) (v : JsValue) :
  requireFilenameEipNum (pc_name file) = inr filenameEipNum →
  truthy_num filenameEipNum = true →
  attributes (pc_content file) !! attr status = Some v →
  (∀ s, v ≠ JsString s) →
  ∃ msg, formatFile file tr = (inl (TypeError msg), tr).
Proof.
  intros Hnum Htruthy Hstatus Hnot.
  rewrite formatFile_run. cbv zeta. rewrite Hnum, Htruthy, Hstatus.
  destruct v as [|b|n| |s|what]; simpl; try by eexists.
  by destruct (Hnot s).
Qed.

(** X8.  What a formatted record holds.  When [formatFile] returns a
    record, its name is the name of the parsed record; its identifier is
    the non-zero number that the file name yields; its eipNum is the eip
    attribute as found, whether or not it agrees with that identifier;
    its status is the status attribute, which was a string, in lower
    case; and its authors are what [getAuthors] returns for the author
    attribute, undefined exactly when that attribute is absent or falsy
    (the empty string, null, false, 0). *)
Theorem formatFile_success
    (file : ParsedContent) (tr : trace)
    (formatted : FormattedFile Category EipType) (tr' : trace) :
  formatFile file tr = (inr formatted, tr') →
  let attrs := attributes (pc_content file) in
  ff_name formatted = pc_name file
  ∧ requireFilenameEipNum (pc_name file) = inr (Some (ff_filenameEipNum formatted))
  ∧ ff_filenameEipNum formatted ≠ 0%Z
  ∧ ff_eipNum formatted = attrs !! attr eip
  ∧ (∃ s, attrs !! attr status = Some (JsString s) ∧ ff_status formatted = toLowerCase s)
  ∧ toLowerCase (ff_status formatted) = ff_status formatted
  ∧ getAuthors_any (attrs !! attr author) tr = (inr (ff_authors formatted), tr')
  ∧ (∀ raw, attrs !! attr author = Some (JsString raw) →
       getAuthors (Some raw) tr = (inr (ff_authors formatted), tr'))
  ∧ (ff_authors formatted = None ↔ truthy_value (attrs !! attr author) = false)
  ∧ (attrs !! attr author = None ∨ attrs !! attr author = Some (JsString "") →
       ff_authors formatted = None).
Proof.
  intros Hrun attrs. rewrite formatFile_run in Hrun. cbv zeta in Hrun.
  fold attrs in Hrun.
  destruct (requireFilenameEipNum (pc_name file)) as [e|[n|]]; simpl in Hrun; try done.
  destruct (n =? 0)%Z eqn:Hn; simpl in Hrun; [done|].
  destruct (attrs !! attr status) as [[| | | |s|]|]; simpl in Hrun; try done.
  destruct (getAuthors_any (attrs !! attr author) tr) as [[e|authors] tr1] eqn:Hauthors;
    [done|].
  destruct (assertCategory _ _ _) as [e|classified]; [done|].
  injection Hrun as <- <-. simpl.
  assert (Hiff : authors = None ↔ truthy_value (attrs !! attr author) = false).
  { split.
    - intros ->. destruct (truthy_value (attrs !! attr author)) eqn:Ht; [|done].
      pose proof (getAuthors_any_truthy _ tr Ht) as Hne.
      by rewrite Hauthors in Hne.
    - intros Hfalsy. rewrite (getAuthors_any_falsy _ _ Hfalsy) in Hauthors.
      by simplify_eq. }
  repeat split; try done.
  - by apply Z.eqb_neq.
  - by exists s.
  - apply toLowerCase_idemp.
  - intros raw Hraw. by rewrite Hraw in Hauthors.
  - apply Hiff.
  - apply Hiff.
  - intros [Habsent|Hempty]; apply Hiff; [by rewrite Habsent|by rewrite Hempty].
Qed.

(** X9.  Once the file name yields a non-zero identifier, [formatFile]
    reads neither the path nor the body of the record: with another path
    and another body the outcome and the interactions are the same. *)
Theorem formatFile_ignores_path_and_body
    (file : ParsedContent) (tr : trace) (filenameEipNum : option Z)
    (path' body' : string) :
  requireFilenameEipNum (pc_name file) = inr filenameEipNum →
  truthy_num filenameEipNum = true →
  formatFile {| pc_path := path';
                pc_name := pc_name file;
                pc_content := {| attributes := attributes (pc_content file);
                                 body := body' |} |} tr
  = formatFile file tr.
Proof.
  intros Hnum Htruthy. rewrite !formatFile_run. simpl.
  by rewrite Hnum, Htruthy.
Qed.

(** X10.  The eip attribute is copied and never examined: it is not
    compared with the identifier of the file name and it influences
    nothing else.  Setting it to any value changes the eipNum of the
    result and nothing more, neither the success nor the failure, the
    other fields or the interactions. *)
Theorem formatFile_eip_attribute_unchecked
    (file : ParsedContent) (tr : trace) (v : JsValue) :
  attr eip ≠ attr status →
  attr eip ≠ attr author →
  attr eip ≠ attr category →
  attr eip ≠ attr type →
  formatFile (with_attributes file (<[attr eip := v]> (attributes (pc_content file)))) tr
  = match formatFile file tr with
    | (inr formatted, tr') => (inr (with_eipNum (Some v) formatted), tr')
    | (inl e, tr') => (inl e, tr')
    end.
Proof.
  intros Hstatus Hauthor Hcategory Htype.
  rewrite !formatFile_run. simpl.
  rewrite lookup_insert_eq, !lookup_insert_ne by done.
  destruct (requireFilenameEipNum (pc_name file)) as [e|n]; [done|].
  destruct (negb (truthy_num n)); [done|].
  destruct (attributes (pc_content file) !! attr status) as [[| | | |s|]|];
    simpl; try done.
  all: destruct (getAuthors_any _ tr) as [[e|authors] tr1]; [done|].
  all: by destruct (assertCategory _ _ _).
Qed.

End MoreFormatProperties.

Lemma formatFile_status_before_authors_witness :
  formatFile (E := Sample.plain) Sample.eip_without_status []
  = (inl (TypeError "Cannot read properties of undefined (reading 'toLowerCase')"), []).
Proof.
  apply (formatFile_status_before_authors (E := Sample.plain)
           Sample.eip_without_status [] (Some 1234%Z));
    reflexivity.
Defined.

Lemma formatFile_status_not_a_string_witness :
  ∃ msg, formatFile (E := Sample.plain) Sample.eip_blank_status []
         = (inl (TypeError msg), []).
Proof.
  apply (formatFile_status_not_a_string (E := Sample.plain) Sample.eip_blank_status []
           (Some 1234%Z) JsNull);
    [reflexivity | reflexivity | reflexivity | discriminate].
Defined.

Lemma formatFile_success_witness :
  ff_name Sample.formatted_head = "eip-1234.md"
  ∧ ff_filenameEipNum Sample.formatted_head ≠ 0%Z.
Proof.
  destruct (formatFile_success (E := Sample.plain) Sample.full_eip []
              Sample.formatted_head Sample.author_line_events)
    as (Hname & _ & Hnum & _).
  - vm_compute. reflexivity.
  - split; [exact Hname | exact Hnum].
Defined.

Lemma formatFile_ignores_path_and_body_witness :
  formatFile (E := Sample.plain)
    {| pc_path := "elsewhere/eip-1234.md";
       pc_name := "eip-1234.md";
       pc_content := {| attributes := attributes (pc_content Sample.bare_eip);
                        body := "Some text." |} |} []
  = formatFile (E := Sample.plain) Sample.bare_eip [].
Proof.
  apply (formatFile_ignores_path_and_body (E := Sample.plain) Sample.bare_eip []
           (Some 1234%Z) "elsewhere/eip-1234.md" "Some text.");
    reflexivity.
Defined.

Lemma formatFile_eip_attribute_unchecked_witness :
  formatFile (E := Sample.plain)
    (with_attributes Sample.bare_eip
       (<["eip" := JsNumber 999]> (attributes (pc_content Sample.bare_eip)))) []
  = (inr {| ff_eipNum := Some (JsNumber 999);
            ff_status := "last call";
            ff_authors := None;
            ff_name := "eip-1234.md";
            ff_filenameEipNum := 1234;
            ff_category := None;
            ff_type := "meta" |}, []).
Proof.
  refine (eq_trans (formatFile_eip_attribute_unchecked (E := Sample.plain)
                      Sample.bare_eip [] (JsNumber 999) _ _ _ _) _);
    [discriminate | discriminate | discriminate | discriminate | reflexivity].
Defined.

(** ** More on getFileDiff *)

Section MoreDiffProperties.
Context `{E : Externals}.

Local Open Scope async_scope.

(** Once the head revision is fetched, the base revision is requested,
    and what is formatted as the base is the base content if that
    request succeeded and the head content if not. *)
Lemma getFileDiff_after_head
    (file : File) (tr : trace) (pr : PullRequest) (head : ParsedContent) (tr1 : trace) :
  requirePr tr = inr pr →
  getParsedContent (filename file) (head_sha pr) (tr ++ [EvRequirePr]) = (inr head, tr1) →
  getFileDiff file tr =
    (formattedHead <- formatFile head ;;
     formattedBase <-
       formatFile (match (getParsedContent (filename file) (base_sha pr) tr1).1 with
                   | inr base => base
                   | inl _ => head
                   end) ;;
     ret {| fd_head := formattedHead; fd_base := formattedBase |})
      (tr1 ++ [EvGetContent (filename file) (base_sha pr)]).
Proof.
  intros Hpr Hhead.
  unfold getFileDiff. unfold bind at 1. unfold remote. rewrite Hpr.
  cbv zeta. unfold bind at 1. rewrite Hhead.
  unfold bind at 1. unfold catch.
  rewrite <- (getParsedContent_history (filename file) (base_sha pr) tr1).
  by destruct (getParsedContent (filename file) (base_sha pr) tr1) as [[e|base] tr2].
Qed.

(** X11.  A failure to fetch the head revision is fatal: unlike at the
    base, there is no fallback.  [getFileDiff] fails with the error of
    the fetch, and the base revision is not even requested. *)
Theorem getFileDiff_head_fetch_failure
    (file : File) (tr : trace) (pr : PullRequest) (e : JsError) (tr1 : trace) :
  requirePr tr = inr pr →
  getParsedContent (filename file) (head_sha pr) (tr ++ [EvRequirePr]) = (inl e, tr1) →
  getFileDiff file tr = (inl e, tr1)
  ∧ tr1 = tr ++ [EvRequirePr; EvGetContent (filename file) (head_sha pr)].
Proof.
  intros Hpr Hhead. split.
  - unfold getFileDiff. unfold bind at 1. unfold remote. rewrite Hpr.
    cbv zeta. unfold bind at 1. by rewrite Hhead.
  - pose proof (getParsedContent_history (filename file) (head_sha pr)
                  (tr ++ [EvRequirePr])) as Hhistory.
    rewrite Hhead in Hhistory. simpl in Hhistory.
    by rewrite Hhistory, <- app_assoc.
Qed.

(** X12.  When both revisions are fetched, each side of the diff is
    formatted from its own revision: the head from the head content and
    then the base from the base content. *)
Theorem getFileDiff_two_revisions
    (file : File) (tr : trace) (pr : PullRequest)
    (head : ParsedContent) (tr1 : trace) (base : ParsedContent) (tr2 : trace)
    (formattedHead : FormattedFile Category EipType) (tr3 : trace)
    (formattedBase : FormattedFile Category EipType) (tr4 : trace) :
  requirePr tr = inr pr →
  getParsedContent (filename file) (head_sha pr) (tr ++ [EvRequirePr]) = (inr head, tr1) →
  getParsedContent (filename file) (base_sha pr) tr1 = (inr base, tr2) →
  formatFile head tr2 = (inr formattedHead, tr3) →
  formatFile base tr3 = (inr formattedBase, tr4) →
  getFileDiff file tr = (inr {| fd_head := formattedHead; fd_base := formattedBase |}, tr4).
Proof.
  intros Hpr Hhead Hbase Hfh Hfb.
  rewrite (getFileDiff_after_head _ _ _ _ _ Hpr Hhead).
  rewrite <- (getParsedContent_history (filename file) (base_sha pr) tr1).
  rewrite Hbase. simpl.
  unfold bind at 1. rewrite Hfh. unfold bind at 1. by rewrite Hfb.
Qed.

(** X13.  The fallback covers the fetch of the base revision only.  When
    the base revision is fetched and cannot be formatted, [getFileDiff]
    fails with that error; the head content is not used in its place. *)
Theorem getFileDiff_base_format_failure
    (file : File) (tr : trace) (pr : PullRequest)
    (head : ParsedContent) (tr1 : trace) (base : ParsedContent) (tr2 : trace)
    (formattedHead : FormattedFile Category EipType) (tr3 : trace)
    (e : JsError) (tr4 : trace) :
  requirePr tr = inr pr →
  getParsedContent (filename file) (head_sha pr) (tr ++ [EvRequirePr]) = (inr head, tr1) →
  getParsedContent (filename file) (base_sha pr) tr1 = (inr base, tr2) →
  formatFile head tr2 = (inr formattedHead, tr3) →
  formatFile base tr3 = (inl e, tr4) →
  getFileDiff file tr = (inl e, tr4).
Proof.
  intros Hpr Hhead Hbase Hfh Hfb.
  rewrite (getFileDiff_after_head _ _ _ _ _ Hpr Hhead).
  rewrite <- (getParsedContent_history (filename file) (base_sha pr) tr1).
  rewrite Hbase. simpl.
  unfold bind at 1. rewrite Hfh. unfold bind at 1. by rewrite Hfb.
Qed.

(** X14.  A head content that cannot be formatted is fatal whatever the
    base revision is: the base revision is requested first, and then
    [getFileDiff] fails with the error of formatting the head, without
    formatting anything as the base. *)
Theorem getFileDiff_head_format_failure
    (file : File) (tr : trace) (pr : PullRequest)
    (head : ParsedContent) (tr1 : trace) (e : JsError) (tr3 : trace) :
  requirePr tr = inr pr →
  getParsedContent (filename file) (head_sha pr) (tr ++ [EvRequirePr]) = (inr head, tr1) →
  formatFile head (tr1 ++ [EvGetContent (filename file) (base_sha pr)]) = (inl e, tr3) →
  getFileDiff file tr = (inl e, tr3).
Proof.
  intros Hpr Hhead Hfh.
  rewrite (getFileDiff_after_head _ _ _ _ _ Hpr Hhead).
  unfold bind at 1. by rewrite Hfh.
Qed.

End MoreDiffProperties.

Lemma getFileDiff_head_fetch_failure_witness :
  getFileDiff (E := Sample.plain) {| filename := "eip-1234.md" |} []
  = (inl (Rejected "Not Found"), [EvRequirePr; EvGetContent "eip-1234.md" "head"])
  ∧ [EvRequirePr; EvGetContent "eip-1234.md" "head"]
    = [] ++ [EvRequirePr; EvGetContent "eip-1234.md" "head"].
Proof.
  apply (getFileDiff_head_fetch_failure (E := Sample.plain)
           {| filename := "eip-1234.md" |} []
           {| head_sha := "head"; base_sha := "base" |});
    reflexivity.
Defined.

Lemma getFileDiff_two_revisions_witness :
  getFileDiff (E := Sample.with_changed_eip) {| filename := "eip-1234.md" |} []
  = (inr {| fd_head := Sample.formatted_head; fd_base := Sample.formatted_base |},
     [EvRequirePr; EvGetContent "eip-1234.md" "head"; EvGetContent "eip-1234.md" "base"]
     ++ Sample.author_line_events).
Proof.
  refine (getFileDiff_two_revisions (E := Sample.with_changed_eip)
            {| filename := "eip-1234.md" |} []
            {| head_sha := "head"; base_sha := "base" |}
            Sample.full_eip [EvRequirePr; EvGetContent "eip-1234.md" "head"]
            Sample.base_eip
            [EvRequirePr; EvGetContent "eip-1234.md" "head"; EvGetContent "eip-1234.md" "base"]
            _
            ([EvRequirePr; EvGetContent "eip-1234.md" "head";
              EvGetContent "eip-1234.md" "base"] ++ Sample.author_line_events)
            _ _ _ _ _ _ _);
    vm_compute; reflexivity.
Defined.

Lemma getFileDiff_base_format_failure_witness :
  getFileDiff (E := Sample.with_changed_eip_bad_base) {| filename := "eip-1234.md" |} []
  = (inl (TypeError "Cannot read properties of undefined (reading 'toLowerCase')"),
     [EvRequirePr; EvGetContent "eip-1234.md" "head"; EvGetContent "eip-1234.md" "base"]
     ++ Sample.author_line_events).
Proof.
  refine (getFileDiff_base_format_failure (E := Sample.with_changed_eip_bad_base)
            {| filename := "eip-1234.md" |} []
            {| head_sha := "head"; base_sha := "base" |}
            Sample.full_eip [EvRequirePr; EvGetContent "eip-1234.md" "head"]
            Sample.base_without_status
            [EvRequirePr; EvGetContent "eip-1234.md" "head"; EvGetContent "eip-1234.md" "base"]
            Sample.formatted_head
            ([EvRequirePr; EvGetContent "eip-1234.md" "head";
              EvGetContent "eip-1234.md" "base"] ++ Sample.author_line_events)
            _ _ _ _ _ _ _);
    vm_compute; reflexivity.
Defined.

Lemma getFileDiff_head_format_failure_witness :
  getFileDiff (E := Sample.with_changed_readme) {| filename := "README.md" |} []
  = (inl (Thrown (extraction_msg "EIPS/README.md")),
     [EvRequirePr; EvGetContent "README.md" "head"; EvGetContent "README.md" "base"]).
Proof.
  refine (getFileDiff_head_format_failure (E := Sample.with_changed_readme)
            {| filename := "README.md" |} []
            {| head_sha := "head"; base_sha := "base" |}
            (Sample.parsed "README.md" [("status", "Draft")])
            [EvRequirePr; EvGetContent "README.md" "head"] _ _ _ _ _);
    vm_compute; reflexivity.
Defined.
